(** * Chat-Project: the broker (chat_server.py) and the relay (chat_relay.py)

    A shallow embedding of the frame transport, the rate limiter, the
    identity registry, the offline mailbox, the dispatcher's handlers and
    the relay's forwarding loop, with the properties of the design document
    stated and settled against them.

    Conventions of the model:
    - Python [str] is [string]; the markers the code tests for are ASCII.
    - Bytes are integers in [0, 256), a byte string is a [list Z].
    - A receiving channel is the list of chunks the stream will hand out,
      followed by the peer's close; [recv] returns at most what is asked.
    - [pickle] is an external codec, taken as an interface ([Pickle]).
    - [time.time()] and [strftime] readings are inputs of the handlers.
    - Printing and the log file do not touch the broker's state and are
      left out; every [send_message] call of the broker is recorded. *)

From stdpp Require Import gmap strings list pretty.
From Stdlib Require Import ZArith Lia Ascii.

Local Open Scope Z_scope.

(** ** Python string helpers *)

Module Py.

(** [s.startswith(p)] *)
Definition startswith (s p : string) : bool := String.prefix p s.

(** [s.split(sep)] for a non-empty separator: left to right, occurrences do
    not overlap.  [skip] counts the characters of a separator still to be
    dropped, [cur] is the piece being read. *)
Fixpoint split_go (sep : string) (s : string) (skip : nat) (cur : string)
  : list string :=
  match s with
  | EmptyString => [cur]
  | String c s' =>
      match skip with
      | S k => split_go sep s' k cur
      | O =>
          if String.prefix sep s
          then cur :: split_go sep s' (Nat.pred (String.length sep)) EmptyString
          else split_go sep s' O (cur +:+ String c EmptyString)
      end
  end.

Definition split (s sep : string) : list string := split_go sep s O EmptyString.

(** [s.split(sep, maxsplit)]: after [maxsplit] cuts the rest is one piece. *)
Fixpoint split_max_go (sep : string) (s : string) (skip : nat) (left : nat)
  (cur : string) : list string :=
  match s with
  | EmptyString => [cur]
  | String c s' =>
      match skip with
      | S k => split_max_go sep s' k left cur
      | O =>
          match left with
          | O => [cur +:+ s]
          | S left' =>
              if String.prefix sep s
              then cur :: split_max_go sep s' (Nat.pred (String.length sep)) left' EmptyString
              else split_max_go sep s' O left (cur +:+ String c EmptyString)
          end
      end
  end.

Definition split_max (s sep : string) (maxsplit : nat) : list string :=
  split_max_go sep s O maxsplit EmptyString.

(** [sep.join(l)] *)
Definition join (sep : string) (l : list string) : string := String.concat sep l.

(** [l[i]]; [None] stands for [IndexError]. *)
Definition index {A} (l : list A) (i : nat) : option A := l !! i.

End Py.

(** ** Frame transport: [send_message] / [receive_message] *)

(** [struct.pack("L", _)] uses the platform's [unsigned long]: 4 bytes on
    ILP32 and LLP64 (Windows), 8 bytes on LP64 (Linux, macOS), laid out in
    the machine's byte order. *)
Record Platform := {
  long64 : bool;
  big_endian : bool
}.

Definition sizeof_long (pf : Platform) : nat := if long64 pf then 8%nat else 4%nat.

Definition linux_x86_64 : Platform := {| long64 := true; big_endian := false |}.
Definition windows_x86_64 : Platform := {| long64 := false; big_endian := false |}.

Definition is_byte (b : Z) : Prop := 0 <= b < 256.

Fixpoint le_bytes (n : nat) (v : Z) : list Z :=
  match n with
  | O => []
  | S n' => v mod 256 :: le_bytes n' (v / 256)
  end.

Fixpoint le_value (bs : list Z) : Z :=
  match bs with
  | [] => 0
  | b :: bs' => b + 256 * le_value bs'
  end.

Definition be_bytes (n : nat) (v : Z) : list Z := rev (le_bytes n v).
Definition be_value (bs : list Z) : Z := le_value (rev bs).

(** [struct.pack("L", v)]; [None] is [struct.error] (out of range). *)
Definition pack_L (pf : Platform) (v : Z) : option (list Z) :=
  if (0 <=? v) && (v <? 256 ^ Z.of_nat (sizeof_long pf))
  then Some (if big_endian pf then be_bytes (sizeof_long pf) v
             else le_bytes (sizeof_long pf) v)
  else None.

(** [struct.unpack("L", bs)[0]]; [None] is [struct.error] (wrong size). *)
Definition unpack_L (pf : Platform) (bs : list Z) : option Z :=
  if Nat.eqb (length bs) (sizeof_long pf)
  then Some (if big_endian pf then be_value bs else le_value bs)
  else None.

Definition bswap32 (v : Z) : Z := be_value (le_bytes 4 v).

(** [socket.htonl(v)]; [None] is [OverflowError] (not a 32-bit value). *)
Definition htonl (pf : Platform) (v : Z) : option Z :=
  if (0 <=? v) && (v <? 2 ^ 32)
  then Some (if big_endian pf then v else bswap32 v)
  else None.

Definition ntohl (pf : Platform) (v : Z) : option Z := htonl pf v.

(** The codec behind [pickle.dumps((s,))] and [pickle.loads(buf)[0]]. *)
Class Pickle := {
  dumps : string -> list Z;
  loads : list Z -> option string;
  loads_dumps : forall s, loads (dumps s) = Some s
}.

(** A sending channel: whether the peer still accepts writes, and the bytes
    written so far. *)
Record WChan := {
  w_open : bool;
  w_bytes : list Z
}.

(** [channel.send(data)]; [None] is the socket error on a closed peer. *)
Definition chan_send (ch : WChan) (data : list Z) : option WChan :=
  if w_open ch then Some {| w_open := true; w_bytes := w_bytes ch ++ data |}
  else None.

(** The header [send_message] writes for a pickled buffer. *)
Definition frame_header (pf : Platform) (buffer : list Z) : option (list Z) :=
  value ← htonl pf (Z.of_nat (length buffer));
  pack_L pf value.

Section Transport.
Context `{Pickle}.

(** [send_message(channel, payload)]: the channel afterwards and the
    boolean returned.  Any exception yields [False]. *)
Definition send_message (pf : Platform) (channel : WChan) (payload : string)
  : WChan * bool :=
  let buffer := dumps payload in
  match frame_header pf buffer with
  | None => (channel, false)
  | Some size =>
      match chan_send channel size with
      | None => (channel, false)
      | Some ch1 =>
          match chan_send ch1 buffer with
          | None => (ch1, false)
          | Some ch2 => (ch2, true)
          end
      end
  end.

(** The bytes one frame occupies on the wire. *)
Definition frame_bytes (pf : Platform) (payload : string) : list Z :=
  w_bytes (fst (send_message pf {| w_open := true; w_bytes := [] |} payload)).

(** [channel.recv(n)]: at most [n] bytes of the next chunk; the empty
    byte string once the peer has closed. *)
Definition recv (ch : list (list Z)) (n : nat) : list Z * list (list Z) :=
  match ch with
  | [] => ([], [])
  | c :: rest =>
      if (length c <=? n)%nat then (c, rest)
      else (take n c, drop n c :: rest)
  end.

(** [while len(buf) < size: buf += channel.recv(size - len(buf))] *)
Fixpoint recv_loop (fuel : nat) (ch : list (list Z)) (buf : list Z) (size : nat)
  : option (list Z * list (list Z)) :=
  if (size <=? length buf)%nat then Some (buf, ch)
  else
    match fuel with
    | O => None
    | S fuel' =>
        let '(d, ch') := recv ch (size - length buf) in
        recv_loop fuel' ch' (buf ++ d) size
    end.

(** [receive_message(channel)]: the value returned and the rest of the
    stream; [None] when the reassembly loop has not finished within
    [fuel] reads.  Every exception yields [''] (the bare [except]). *)
Definition receive_message (pf : Platform) (fuel : nat) (ch : list (list Z))
  : option (string * list (list Z)) :=
  let '(size_data, ch1) := recv ch (sizeof_long pf) in
  match size_data with
  | [] => Some (EmptyString, ch1)
  | _ :: _ =>
      match unpack_L pf size_data ≫= ntohl pf with
      | None => Some (EmptyString, ch1)
      | Some size =>
          match recv_loop fuel ch1 [] (Z.to_nat size) with
          | None => None
          | Some (buf, ch2) =>
              Some (match loads buf with
                    | Some s => s
                    | None => EmptyString
                    end, ch2)
          end
      end
  end.

End Transport.

(** A stand-in codec obeying the [Pickle] law: a protocol marker, the bytes
    of the string, a stop opcode. *)
Definition byte_of_ascii (a : ascii) : Z := Z.of_nat (nat_of_ascii a).
Definition ascii_of_byte (b : Z) : ascii := ascii_of_nat (Z.to_nat b).

Fixpoint string_bytes (s : string) : list Z :=
  match s with
  | EmptyString => []
  | String a s' => byte_of_ascii a :: string_bytes s'
  end.

Fixpoint bytes_string (bs : list Z) : string :=
  match bs with
  | [] => EmptyString
  | b :: bs' => String (ascii_of_byte b) (bytes_string bs')
  end.

Definition toy_dumps (s : string) : list Z := 128 :: string_bytes s ++ [46].

Definition toy_loads (bs : list Z) : option string :=
  match bs with
  | 128 :: rest =>
      match rev rest with
      | 46 :: body => Some (bytes_string (rev body))
      | _ => None
      end
  | _ => None
  end.

#[export, refine] Instance toy_pickle : Pickle :=
  {| dumps := toy_dumps; loads := toy_loads |}.
Proof.
  assert (Hbs : forall s, bytes_string (string_bytes s) = s).
  { induction s as [|a s IH]; simpl; [done|].
    unfold ascii_of_byte, byte_of_ascii.
    by rewrite Nat2Z.id, ascii_nat_embedding, IH. }
  intros s. unfold toy_loads, toy_dumps.
  rewrite rev_app_distr. simpl.
  by rewrite rev_involutive, Hbs.
Defined.

(** ** Rate limiter *)

Record RateLimiter := {
  max_messages : Z;
  time_window : Z;
  message_times : gmap string (list Z)
}.

(** [RateLimiter(max_messages, time_window)] *)
Definition RateLimiter_init (max_messages time_window : Z) : RateLimiter :=
  {| max_messages := max_messages; time_window := time_window;
     message_times := ∅ |}.

(** The list comprehension of [check_rate]: the timestamps still inside the
    window seen from [current_time]. *)
Definition prune (rl : RateLimiter) (current_time : Z) (times : list Z) : list Z :=
  List.filter (fun t => current_time - t <? time_window rl) times.

(** [check_rate(client_id)] at clock reading [current_time]. *)
Definition check_rate (rl : RateLimiter) (current_time : Z) (client_id : string)
  : RateLimiter * bool :=
  let times := default [] (message_times rl !! client_id) in
  let kept := prune rl current_time times in
  if Z.of_nat (length kept) >=? max_messages rl
  then ({| max_messages := max_messages rl; time_window := time_window rl;
           message_times := <[client_id := kept]> (message_times rl) |}, false)
  else ({| max_messages := max_messages rl; time_window := time_window rl;
           message_times := <[client_id := kept ++ [current_time]]> (message_times rl) |},
        true).

(** [remove_client(client_id)] *)
Definition remove_client (rl : RateLimiter) (client_id : string) : RateLimiter :=
  {| max_messages := max_messages rl; time_window := time_window rl;
     message_times := delete client_id (message_times rl) |}.

(** The window kept for an identity ([[]] when there is none). *)
Definition window (rl : RateLimiter) (client_id : string) : list Z :=
  default [] (message_times rl !! client_id).

(** A run of checks for one identity at the given clock readings: the
    limiter afterwards and the verdicts in order. *)
Fixpoint check_all (rl : RateLimiter) (client_id : string) (times : list Z)
  : RateLimiter * list bool :=
  match times with
  | [] => (rl, [])
  | t :: rest =>
      let '(rl1, ok) := check_rate rl t client_id in
      let '(rl2, oks) := check_all rl1 client_id rest in
      (rl2, ok :: oks)
  end.

(** The operations the dispatcher applies to its limiter. *)
Inductive RateOp :=
  | OpCheck (current_time : Z) (client_id : string)
  | OpRemove (client_id : string).

Definition rate_step (rl : RateLimiter) (op : RateOp) : RateLimiter :=
  match op with
  | OpCheck t c => fst (check_rate rl t c)
  | OpRemove c => remove_client rl c
  end.

Definition MESSAGE_RATE_LIMIT : Z := 10.
Definition RATE_LIMIT_WINDOW : Z := 60.

(** ** A Python [dict] whose key order is observed

    [nickname_map] is listed by [send_user_list], so it keeps insertion
    order: a list of bindings with pairwise distinct keys. *)

Module Dict.
Section Dict.
Context {V : Type}.

Fixpoint get (k : string) (d : list (string * V)) : option V :=
  match d with
  | [] => None
  | (k', v) :: d' => if String.eqb k k' then Some v else get k d'
  end.

(** [k in d] *)
Definition mem (k : string) (d : list (string * V)) : bool :=
  match get k d with Some _ => true | None => false end.

(** [d[k] = v]: an existing key keeps its place, a new one goes last. *)
Fixpoint set (k : string) (v : V) (d : list (string * V)) : list (string * V) :=
  match d with
  | [] => [(k, v)]
  | (k', v') :: d' =>
      if String.eqb k k' then (k, v) :: d' else (k', v') :: set k v d'
  end.

(** [del d[k]] *)
Fixpoint del (k : string) (d : list (string * V)) : list (string * V) :=
  match d with
  | [] => []
  | (k', v') :: d' =>
      if String.eqb k k' then d' else (k', v') :: del k d'
  end.

(** [list(d.keys())] *)
Definition keys (d : list (string * V)) : list string := map fst d.

End Dict.
End Dict.

(** ** The broker: [ChatServer] *)

Definition Sock := nat.
Definition Address := (string * Z)%type.

(** One element of [string.digits]. *)
Inductive Digit := D0 | D1 | D2 | D3 | D4 | D5 | D6 | D7 | D8 | D9.

Definition digit_char (d : Digit) : string :=
  match d with
  | D0 => "0" | D1 => "1" | D2 => "2" | D3 => "3" | D4 => "4"
  | D5 => "5" | D6 => "6" | D7 => "7" | D8 => "8" | D9 => "9"
  end.


(** One outcome of [random.choices(string.digits, k=3)]. *)
Definition Draw := (Digit * Digit * Digit)%type.

(** [''.join(random.choices(string.digits, k=3))] for that outcome. *)
Definition suffix (d : Draw) : string :=
  let '(a, b, c) := d in digit_char a +:+ digit_char b +:+ digit_char c.


(** A queued private message: [(sender, message, timestamp)]. *)
Definition Entry := (string * string * string)%type.

Record ChatServer := {
  clients : Z;
  clientmap : gmap Sock (Address * string);
  nickname_map : list (string * Sock);
  inputs : list Sock;
  outputs : list Sock;
  rate_limiter : RateLimiter;
  total_messages : Z;
  private_messages : Z;
  offline_messages : gmap string (list Entry);
  sent : list (Sock * string);
  closed : list Sock
}.

(** [ChatServer.__init__] followed by the start of [run]; [inputs] leaves
    out the listening socket. *)
Definition ChatServer_init : ChatServer :=
  {| clients := 0; clientmap := ∅; nickname_map := []; inputs := [];
     outputs := []; rate_limiter := RateLimiter_init MESSAGE_RATE_LIMIT RATE_LIMIT_WINDOW;
     total_messages := 0; private_messages := 0; offline_messages := ∅;
     sent := []; closed := [] |}.

(** A [send_message(sock, msg)] call of the broker, recorded in order. *)
Definition send_to (sock : Sock) (msg : string) (st : ChatServer) : ChatServer :=
  {| clients := clients st; clientmap := clientmap st;
     nickname_map := nickname_map st; inputs := inputs st; outputs := outputs st;
     rate_limiter := rate_limiter st; total_messages := total_messages st;
     private_messages := private_messages st;
     offline_messages := offline_messages st;
     sent := sent st ++ [(sock, msg)]; closed := closed st |}.

(** [sock.close()] *)
Definition close_sock (sock : Sock) (st : ChatServer) : ChatServer :=
  {| clients := clients st; clientmap := clientmap st;
     nickname_map := nickname_map st; inputs := inputs st; outputs := outputs st;
     rate_limiter := rate_limiter st; total_messages := total_messages st;
     private_messages := private_messages st;
     offline_messages := offline_messages st;
     sent := sent st; closed := closed st ++ [sock] |}.

(** The collision loop of [generate_unique_nickname]: one iteration per
    drawn suffix; [None] while no draw has produced an unheld name. *)
Fixpoint generate_loop (nm : list (string * Sock)) (base_nickname : string)
  (draws : list Draw) : option string :=
  match draws with
  | [] => None
  | d :: rest =>
      let new_nickname := base_nickname +:+ suffix d in
      if negb (Dict.mem new_nickname nm) then Some new_nickname
      else generate_loop nm base_nickname rest
  end.

(** [generate_unique_nickname(base_nickname)] under the given outcomes of
    the random draws. *)
Definition generate_unique_nickname (nm : list (string * Sock))
  (base_nickname : string) (draws : list Draw) : option string :=
  if negb (Dict.mem base_nickname nm) then Some base_nickname
  else generate_loop nm base_nickname draws.

(** [get_client_name(client)] *)
Definition get_client_name (st : ChatServer) (client : Sock) : string :=
  match clientmap st !! client with
  | Some info => snd info
  | None => "Unknown"
  end.

(** [broadcast(message, exclude)] *)
Definition broadcast (message : string) (exclude : option Sock) (st : ChatServer)
  : ChatServer :=
  foldl (fun acc output =>
           if bool_decide (Some output = exclude) then acc
           else send_to output message acc)
        st (outputs st).

(** [send_user_list(client_sock)] *)
Definition send_user_list (client_sock : Sock) (st : ChatServer) : ChatServer :=
  send_to client_sock
    ("USERLIST:" +:+ Py.join "," (Dict.keys (nickname_map st))) st.

(** [for sock in self.outputs: self.send_user_list(sock)] *)
Definition send_user_list_all (st : ChatServer) : ChatServer :=
  foldl (fun acc sock => send_user_list sock acc) st (outputs st).

(** The frame [deliver_offline_messages] builds for one entry. *)
Definition offline_frame (e : Entry) : string :=
  let '(sender, msg, timestamp) := e in
  "[" +:+ timestamp +:+ "] OFFLINE MESSAGE from " +:+ sender +:+ ": " +:+ msg.

(** [deliver_offline_messages(nickname, client_sock)] *)
Definition deliver_offline_messages (nickname : string) (client_sock : Sock)
  (st : ChatServer) : ChatServer :=
  match offline_messages st !! nickname with
  | Some messages =>
      let st1 := foldl (fun acc e => send_to client_sock (offline_frame e) acc)
                       st messages in
      {| clients := clients st1; clientmap := clientmap st1;
         nickname_map := nickname_map st1; inputs := inputs st1;
         outputs := outputs st1; rate_limiter := rate_limiter st1;
         total_messages := total_messages st1;
         private_messages := private_messages st1;
         offline_messages := delete nickname (offline_messages st1);
         sent := sent st1; closed := closed st1 |}
  | None => st
  end.

(** [send_private_message(sender_sock, target_nickname, message)] with the
    [strftime('%H:%M:%S')] reading [timestamp]: the state afterwards and the
    boolean returned. *)
Definition send_private_message (timestamp : string) (sender_sock : Sock)
  (target_nickname message : string) (st : ChatServer) : ChatServer * bool :=
  let sender_name := get_client_name st sender_sock in
  match Dict.get target_nickname (nickname_map st) with
  | Some target_sock =>
      let pm_msg := "[" +:+ timestamp +:+ "] PRIVATE from " +:+ sender_name
                    +:+ ": " +:+ message in
      let st1 := send_to target_sock pm_msg st in
      let st2 := send_to sender_sock
                   ("[" +:+ timestamp +:+ "] PRIVATE to " +:+ target_nickname
                    +:+ ": " +:+ message) st1 in
      ({| clients := clients st2; clientmap := clientmap st2;
          nickname_map := nickname_map st2; inputs := inputs st2;
          outputs := outputs st2; rate_limiter := rate_limiter st2;
          total_messages := total_messages st2;
          private_messages := private_messages st2 + 1;
          offline_messages := offline_messages st2;
          sent := sent st2; closed := closed st2 |}, true)
  | None =>
      let queue := default [] (offline_messages st !! target_nickname) in
      let st1 :=
        {| clients := clients st; clientmap := clientmap st;
           nickname_map := nickname_map st; inputs := inputs st;
           outputs := outputs st; rate_limiter := rate_limiter st;
           total_messages := total_messages st;
           private_messages := private_messages st;
           offline_messages :=
             <[target_nickname := queue ++ [(sender_name, message, timestamp)]]>
               (offline_messages st);
           sent := sent st; closed := closed st |} in
      (send_to sender_sock
         ("User " +:+ target_nickname +:+ " is offline. Message saved for delivery.")
         st1, false)
  end.

(** [l.remove(x)] guarded by [if x in l]: the first occurrence goes. *)
Fixpoint list_remove (x : Sock) (l : list Sock) : list Sock :=
  match l with
  | [] => []
  | y :: l' => if Nat.eqb x y then l' else y :: list_remove x l'
  end.

Definition reserved_error : string :=
  "Nickname cannot start with '*' (reserved for relay)".

(** The part of [handle_new_connection] after [cname = receive_message(client)],
    for the accepted socket [client] and the frame [cname] it sent.  [None]:
    the collision loop has not returned within [draws]. *)
Definition on_handshake (client : Sock) (address : Address) (cname : string)
  (draws : list Draw) (st : ChatServer) : option ChatServer :=
  if String.eqb cname "" || negb (Py.startswith cname "NAME: ")
  then Some (close_sock client st)
  else
    match Py.index (Py.split cname "NAME: ") 1 with
    | None => Some st
    | Some cname =>
        if Py.startswith cname "*"
        then Some (close_sock client
                     (send_to client ("ERROR: " +:+ reserved_error) st))
        else
          match generate_unique_nickname (nickname_map st) cname draws with
          | None => None
          | Some cname =>
              let st1 :=
                {| clients := clients st + 1;
                   clientmap := <[client := (address, cname)]> (clientmap st);
                   nickname_map := Dict.set cname client (nickname_map st);
                   inputs := inputs st ++ [client];
                   outputs := outputs st ++ [client];
                   rate_limiter := rate_limiter st;
                   total_messages := total_messages st;
                   private_messages := private_messages st;
                   offline_messages := offline_messages st;
                   sent := sent st; closed := closed st |} in
              let st2 := send_to client ("CLIENT: " +:+ cname) st1 in
              let st3 := send_user_list client st2 in
              let st4 := deliver_offline_messages cname client st3 in
              let join_msg := cname +:+ " joined (Total Clients: "
                              +:+ pretty (clients st4) +:+ ")" in
              let st5 := broadcast join_msg (Some client) st4 in
              Some (send_user_list_all st5)
          end
    end.

(** [handle_client_disconnect(sock, inputs)] *)
Definition handle_client_disconnect (sock : Sock) (st : ChatServer) : ChatServer :=
  let client_name := get_client_name st sock in
  let st1 :=
    {| clients := clients st - 1;
       clientmap := delete sock (clientmap st);
       nickname_map := Dict.del client_name (nickname_map st);
       inputs := list_remove sock (inputs st);
       outputs := list_remove sock (outputs st);
       rate_limiter := remove_client (rate_limiter st) client_name;
       total_messages := total_messages st;
       private_messages := private_messages st;
       offline_messages := offline_messages st;
       sent := sent st; closed := closed st |} in
  let st2 := close_sock sock st1 in
  let leave_msg := client_name +:+ " left (Total Clients: "
                   +:+ pretty (clients st2) +:+ ")" in
  let st3 := broadcast leave_msg None st2 in
  send_user_list_all st3.

Definition rate_limit_notice : string :=
  "RATE_LIMIT: You are sending messages too quickly. Slow down!".

(** The part of [handle_client_message] after [data = receive_message(sock)],
    at clock reading [now] (for [time.time()]) and [timestamp] (for
    [strftime('%H:%M:%S')]). *)
Definition on_data (sock : Sock) (data : string) (now : Z) (timestamp : string)
  (st : ChatServer) : ChatServer :=
  if negb (String.eqb data "") then
    let client_name := get_client_name st sock in
    let '(rl, ok) := check_rate (rate_limiter st) now client_name in
    let st1 :=
      {| clients := clients st; clientmap := clientmap st;
         nickname_map := nickname_map st; inputs := inputs st;
         outputs := outputs st; rate_limiter := rl;
         total_messages := total_messages st;
         private_messages := private_messages st;
         offline_messages := offline_messages st;
         sent := sent st; closed := closed st |} in
    if negb ok then send_to sock rate_limit_notice st1
    else if Py.startswith data "/pm " then
      match Py.split_max data " " 2 with
      | _ :: target :: message :: _ =>
          fst (send_private_message timestamp sock target message st1)
      | _ => send_to sock "Usage: /pm <nickname> <message>" st1
      end
    else
      let msg := "[" +:+ timestamp +:+ "] " +:+ client_name +:+ ": " +:+ data in
      let st2 := broadcast msg (Some sock) st1 in
      {| clients := clients st2; clientmap := clientmap st2;
         nickname_map := nickname_map st2; inputs := inputs st2;
         outputs := outputs st2; rate_limiter := rate_limiter st2;
         total_messages := total_messages st2 + 1;
         private_messages := private_messages st2;
         offline_messages := offline_messages st2;
         sent := sent st2; closed := closed st2 |}
  else handle_client_disconnect sock st.

Section Dispatcher.
Context `{Pickle}.
Variable pf : Platform.

(** [handle_new_connection(inputs)]: [client, address] is what [accept]
    returned and [chan] what the new peer sends.  [None]: the handler has
    not returned (blocked in a read or in the collision loop). *)
Definition handle_new_connection (fuel : nat) (client : Sock) (address : Address)
  (chan : list (list Z)) (draws : list Draw) (st : ChatServer)
  : option ChatServer :=
  match receive_message pf fuel chan with
  | None => None
  | Some (cname, _) => on_handshake client address cname draws st
  end.

(** [handle_client_message(sock, inputs)] with [chan] the bytes pending
    on [sock]. *)
Definition handle_client_message (fuel : nat) (sock : Sock)
  (chan : list (list Z)) (now : Z) (timestamp : string) (st : ChatServer)
  : option ChatServer :=
  match receive_message pf fuel chan with
  | None => None
  | Some (data, _) => Some (on_data sock data now timestamp st)
  end.

End Dispatcher.

(** What the loop in [run] handles: a connection to accept on the listening
    socket, a readable session socket ([handle_client_message]), or a socket
    of [select]'s exceptional list ([handle_client_error], which for every
    socket but the listening one is [handle_client_disconnect]). *)
Inductive Event :=
  | Accept (client : Sock) (address : Address) (cname : string) (draws : list Draw)
  | Readable (sock : Sock) (data : string) (now : Z) (timestamp : string)
  | Exceptional (sock : Sock).

(** The handler [run] calls for an event, on the frame already decoded. *)
Definition handle (st : ChatServer) (ev : Event) : option ChatServer :=
  match ev with
  | Accept client address cname draws => on_handshake client address cname draws st
  | Readable sock data now timestamp => Some (on_data sock data now timestamp st)
  | Exceptional sock => Some (handle_client_disconnect sock st)
  end.

(** [accept] returns a socket that is not a session yet.  [select] reports
    sockets that were in [inputs] when it was called, and [run] goes through
    its readable list and then through its exceptional list: a socket of the
    readable list still has its session when its handler starts, while a
    socket of the exceptional list may have been torn down meanwhile by
    [handle_client_message] in the readable pass, so [handle_client_error]
    is also called on sockets the broker has closed. *)
Definition enabled (st : ChatServer) (ev : Event) : Prop :=
  match ev with
  | Accept client _ _ _ => clientmap st !! client = None
  | Readable sock _ _ _ => is_Some (clientmap st !! sock)
  | Exceptional sock => is_Some (clientmap st !! sock) \/ In sock (closed st)
  end.

(** The states the broker reaches from start-up. *)
Inductive reachable : ChatServer -> Prop :=
  | reachable_init : reachable ChatServer_init
  | reachable_step st ev st' :
      reachable st -> enabled st ev -> handle st ev = Some st' -> reachable st'.

(** The loop of [run] over the events it handles, in order. *)
Fixpoint run (st : ChatServer) (events : list Event) : option ChatServer :=
  match events with
  | [] => Some st
  | ev :: rest =>
      match handle st ev with
      | Some st' => run st' rest
      | None => None
      end
  end.

(** ** The relay: [ChatRelay] *)

(** [rewrite_nickname(data)]; [None] stands for the [IndexError] of
    [split(...)[1]]. *)
Definition rewrite_nickname (data : string) : option string :=
  if Py.startswith data "NAME: " then
    match Py.index (Py.split data "NAME: ") 1 with
    | None => None
    | Some nickname =>
        if negb (Py.startswith nickname "*")
        then Some ("NAME: *" +:+ nickname)
        else Some data
    end
  else Some data.

(** The loop of [forward_data] on the frames [receive_message] returns from
    the source, in order (the empty string is its peer-closed signal), with
    [dest] the frames the destination has taken so far and [accepts] how
    many more sends succeed before [send_message] returns [False].  Returns
    the frames delivered to the destination and the count this call has added
    to [total_relayed] (a field all forwarding threads share). *)
Fixpoint forward_loop (is_client_to_server first_message : bool)
  (incoming : list string) (accepts : nat) (dest : list string) (total_relayed : Z)
  : list string * Z :=
  match incoming with
  | [] => (dest, total_relayed)
  | data :: rest =>
      if String.eqb data "" then (dest, total_relayed)
      else
        let rewritten :=
          if is_client_to_server && first_message then
            if Py.startswith data "NAME: " then rewrite_nickname data
            else Some data
          else Some data in
        match rewritten with
        | None => (dest, total_relayed)
        | Some data' =>
            match accepts with
            | O => (dest, total_relayed)
            | S accepts' =>
                forward_loop is_client_to_server
                  (if is_client_to_server && first_message then false
                   else first_message)
                  rest accepts' (dest ++ [data']) (total_relayed + 1)
            end
        end
  end.

(** [forward_data(source_sock, dest_sock, is_client_to_server, client_addr)] *)
Definition forward_data (is_client_to_server : bool) (incoming : list string)
  (accepts : nat) : list string * Z :=
  forward_loop is_client_to_server true incoming accepts [] 0.

(** ** Notions used in the statements *)

(** A stream whose chunks all carry data. *)
Definition chunked (ch : list (list Z)) : Prop := Forall (fun c => c <> []) ch.

(** The stream that hands out one byte per read. *)
Definition bytewise (bytes : list Z) : list (list Z) := map (fun b => [b]) bytes.

(** The length header as it appears on the wire for a buffer of [n] bytes:
    the 32-bit network-order length, padded to the width of [unsigned long]. *)
Definition wire_header (pf : Platform) (n : Z) : list Z :=
  if long64 pf then
    if big_endian pf then replicate 4 0 ++ be_bytes 4 n
    else be_bytes 4 n ++ replicate 4 0
  else be_bytes 4 n.

(** The broker's state with another record of sent frames. *)
Definition set_sent (st : ChatServer) (s : list (Sock * string)) : ChatServer :=
  {| clients := clients st; clientmap := clientmap st;
     nickname_map := nickname_map st; inputs := inputs st; outputs := outputs st;
     rate_limiter := rate_limiter st; total_messages := total_messages st;
     private_messages := private_messages st;
     offline_messages := offline_messages st;
     sent := s; closed := closed st |}.

(** The frames one [broadcast] sends. *)
Definition notices (message : string) (exclude : option Sock) (outs : list Sock)
  : list (Sock * string) :=
  map (fun o => (o, message))
      (List.filter (fun o => negb (bool_decide (Some o = exclude))) outs).

(** The frame [send_user_list] sends. *)
Definition user_list_frame (nm : list (string * Sock)) : string :=
  "USERLIST:" +:+ Py.join "," (Dict.keys nm).

(** The registry is consistent: the keys of [nickname_map] are pairwise
    distinct and its bindings are exactly the sessions of [clientmap]. *)
Definition registry_ok (st : ChatServer) : Prop :=
  NoDup (Dict.keys (nickname_map st)) /\
  (forall sock address n,
      clientmap st !! sock = Some (address, n) ->
      Dict.get n (nickname_map st) = Some sock) /\
  (forall n sock,
      Dict.get n (nickname_map st) = Some sock ->
      exists address, clientmap st !! sock = Some (address, n)).

(** No two sessions carry the same nickname. *)
Definition unique_nicknames (st : ChatServer) : Prop :=
  forall s1 a1 s2 a2 n,
    clientmap st !! s1 = Some (a1, n) ->
    clientmap st !! s2 = Some (a2, n) ->
    s1 = s2.

(** The state [handle_new_connection] leaves when it admits [client] under
    the nickname [n]. *)
Definition joined (client : Sock) (address : Address) (n : string)
  (st : ChatServer) : ChatServer :=
  let nm := Dict.set n client (nickname_map st) in
  let outs := outputs st ++ [client] in
  {| clients := clients st + 1;
     clientmap := <[client := (address, n)]> (clientmap st);
     nickname_map := nm;
     inputs := inputs st ++ [client];
     outputs := outs;
     rate_limiter := rate_limiter st;
     total_messages := total_messages st;
     private_messages := private_messages st;
     offline_messages := delete n (offline_messages st);
     sent := sent st
             ++ [(client, "CLIENT: " +:+ n); (client, user_list_frame nm)]
             ++ map (fun e => (client, offline_frame e))
                    (default [] (offline_messages st !! n))
             ++ notices (n +:+ " joined (Total Clients: "
                           +:+ pretty (clients st + 1) +:+ ")")
                        (Some client) outs
             ++ map (fun o => (o, user_list_frame nm)) outs;
     closed := closed st |}.

(** The state [handle_client_disconnect] leaves for a socket whose name
    [get_client_name] reports as [n]. *)
Definition departed (sock : Sock) (n : string) (st : ChatServer) : ChatServer :=
  let nm := Dict.del n (nickname_map st) in
  let outs := list_remove sock (outputs st) in
  {| clients := clients st - 1;
     clientmap := delete sock (clientmap st);
     nickname_map := nm;
     inputs := list_remove sock (inputs st);
     outputs := outs;
     rate_limiter := remove_client (rate_limiter st) n;
     total_messages := total_messages st;
     private_messages := private_messages st;
     offline_messages := offline_messages st;
     sent := sent st
             ++ notices (n +:+ " left (Total Clients: "
                           +:+ pretty (clients st - 1) +:+ ")") None outs
             ++ map (fun o => (o, user_list_frame nm)) outs;
     closed := closed st ++ [sock] |}.

(** The queue entries a run of [send_private_message] calls stores:
    each call is [(sender_sock, message, timestamp)]. *)
Definition entries_of (st : ChatServer) (sends : list (Sock * string * string))
  : list Entry :=
  map (fun '(sender_sock, message, timestamp) =>
         (get_client_name st sender_sock, message, timestamp)) sends.

(** A run of private messages to one target. *)
Definition enqueue_all (target : string) (sends : list (Sock * string * string))
  (st : ChatServer) : ChatServer :=
  foldl (fun acc '(sender_sock, message, timestamp) =>
           fst (send_private_message timestamp sender_sock target message acc))
        st sends.

(** No registered nickname begins with the reserved marker. *)
Definition no_reserved (st : ChatServer) : Prop :=
  forall n sock, Dict.get n (nickname_map st) = Some sock ->
                 Py.startswith n "*" = false.

(** The notice a sender gets when its private message is queued. *)
Definition queued_notice (target : string) : string :=
  "User " +:+ target +:+ " is offline. Message saved for delivery.".

(** The frames a pure pass-through delivers: those before the first empty
    one, as long as the destination takes them. *)
Fixpoint relayed (incoming : list string) (accepts : nat) : list string :=
  match incoming with
  | [] => []
  | data :: rest =>
      if String.eqb data "" then []
      else match accepts with
           | O => []
           | S accepts' => data :: relayed rest accepts'
           end
  end.

(** The identity an operation of the limiter concerns. *)
Definition op_client (op : RateOp) : string :=
  match op with
  | OpCheck _ c => c
  | OpRemove c => c
  end.

(** The broker's state with another limiter. *)
Definition set_rate_limiter (st : ChatServer) (rl : RateLimiter) : ChatServer :=
  {| clients := clients st; clientmap := clientmap st;
     nickname_map := nickname_map st; inputs := inputs st; outputs := outputs st;
     rate_limiter := rl; total_messages := total_messages st;
     private_messages := private_messages st;
     offline_messages := offline_messages st;
     sent := sent st; closed := closed st |}.

(** [c in s] for a character. *)
Fixpoint has_char (c : ascii) (s : string) : bool :=
  match s with
  | EmptyString => false
  | String c' s' => if Ascii.eqb c c' then true else has_char c s'
  end.

(** ** The clients: chat_client.py *)

(** [ChatClientGUI.send_private_message(target, message)]: the command it
    passes to [send_message]. *)
Definition pm_command (target message : string) : string :=
  "/pm " +:+ target +:+ " " +:+ message.

(** The handshake of [ChatClientConsole.__init__] and of
    [ChatClientGUI.connect_to_server]: the frame sent for a nickname, and the
    nickname kept after the reply [data]. *)
Definition name_frame (nickname : string) : string := "NAME: " +:+ nickname.

Definition assigned_nickname (nickname data : string) : option string :=
  if negb (String.eqb data "") && Py.startswith data "CLIENT: "
  then Py.index (Py.split data "CLIENT: ") 1
  else Some nickname.

(** The event is handled on a socket that has a session (an accept is
    handled on the listening socket). *)
Definition on_session (st : ChatServer) (ev : Event) : Prop :=
  match ev with
  | Accept _ _ _ _ => True
  | Readable sock _ _ _ => is_Some (clientmap st !! sock)
  | Exceptional sock => is_Some (clientmap st !! sock)
  end.

(** Every binding of [nickname_map] is a session of [clientmap] under that
    nickname, no nickname is bound twice and no session carries a reserved
    name. *)
Definition registry_sound (st : ChatServer) : Prop :=
  NoDup (Dict.keys (nickname_map st)) /\
  (forall n sock,
      Dict.get n (nickname_map st) = Some sock ->
      exists address, clientmap st !! sock = Some (address, n)) /\
  (forall sock address n,
      clientmap st !! sock = Some (address, n) -> Py.startswith n "*" = false).

(** The session sockets are listed: [inputs] (the listening socket apart)
    and [outputs] hold the sockets of [clientmap], each once, and [clients]
    does not exceed their number. *)
Definition sessions_listed (st : ChatServer) : Prop :=
  inputs st = outputs st /\
  NoDup (outputs st) /\
  (forall s, In s (outputs st) <-> is_Some (clientmap st !! s)) /\
  clients st <= Z.of_nat (length (outputs st)).

(** Mail is only kept for absent nicknames, and a kept queue has entries. *)
Definition mail_for_absent (st : ChatServer) : Prop :=
  (forall n, Dict.mem n (nickname_map st) = true ->
             offline_messages st !! n = None) /\
  (forall n queue, offline_messages st !! n = Some queue -> queue <> []).

(** The broker's limiter keeps its configuration and its bound. *)
Definition limiter_bounded (st : ChatServer) : Prop :=
  max_messages (rate_limiter st) = MESSAGE_RATE_LIMIT /\
  time_window (rate_limiter st) = RATE_LIMIT_WINDOW /\
  forall id,
    Z.of_nat (length (window (rate_limiter st) id)) <= MESSAGE_RATE_LIMIT.

(** Everything but the record of sent frames and closed sockets is equal. *)
Definition same_tables (st st' : ChatServer) : Prop :=
  clients st' = clients st /\
  clientmap st' = clientmap st /\
  nickname_map st' = nickname_map st /\
  inputs st' = inputs st /\
  outputs st' = outputs st /\
  rate_limiter st' = rate_limiter st /\
  offline_messages st' = offline_messages st.

(** ** The relay's pairing table *)

(** [ChatRelay.connections] (each pairing is stored in both directions) and
    the sockets closed so far. *)
Record ChatRelay := {
  connections : gmap Sock Sock;
  relay_closed : list Sock
}.

(** [handle_client_connection(client_sock, client_addr)] up to the start of
    the two forwarding threads; [server_sock] is what [connect_to_server]
    returned ([None] when the connection failed). *)
Definition handle_client_connection (client_sock : Sock) (server_sock : option Sock)
  (r : ChatRelay) : ChatRelay :=
  match server_sock with
  | None =>
      {| connections := connections r;
         relay_closed := relay_closed r ++ [client_sock] |}
  | Some server_sock =>
      {| connections :=
           <[server_sock := client_sock]>
             (<[client_sock := server_sock]> (connections r));
         relay_closed := relay_closed r |}
  end.

(** [cleanup_connection(sock1, sock2, client_addr)] *)
Definition cleanup_connection (sock1 sock2 : Sock) (r : ChatRelay) : ChatRelay :=
  {| connections := delete sock2 (delete sock1 (connections r));
     relay_closed := relay_closed r ++ [sock1; sock2] |}.

(** The count [print_stats] shows: [len(self.connections) // 2]. *)
Definition active_connections (r : ChatRelay) : nat :=
  (size (connections r) / 2)%nat.

(** ** The broker's log buffer *)

Definition MAX_BUFFER_SIZE : nat := 1000.

(** [log_message(message)] on [message_buffer], with [timestamp] the
    [strftime] reading; [file_ok] tells whether the log file could be
    written: when it could not, the exception skips the rest. *)
Definition log_message (file_ok : bool) (timestamp message : string)
  (message_buffer : list string) : list string :=
  if file_ok then
    let log_entry := "[" +:+ timestamp +:+ "] " +:+ message in
    let buffer := message_buffer ++ [log_entry] in
    if (MAX_BUFFER_SIZE <? length buffer)%nat then tail buffer else buffer
  else message_buffer.

(** The entry [log_message] builds. *)
Definition log_entry_of (e : string * string) : string :=
  "[" +:+ fst e +:+ "] " +:+ snd e.

(** A run of successful [log_message] calls, each a [(timestamp, message)]. *)
Definition log_all (entries : list (string * string)) (message_buffer : list string)
  : list string :=
  foldl (fun buffer e => log_message true (fst e) (snd e) buffer)
        message_buffer entries.

(** The member list holds sessions only: the sockets [nickname_map] binds
    follow the order of [outputs], and each is a session under the nickname
    it is bound to. *)
Definition member_list_in_join_order (st : ChatServer) : Prop :=
  sublist (map snd (nickname_map st)) (outputs st) /\
  forall n s, In (n, s) (nickname_map st) ->
              exists address, clientmap st !! s = Some (address, n).



(** * Properties *)

(** ** Byte-level facts about the length header *)

(** Closes [true = (0 <=? v) && (v <? bound)] from the hypotheses. *)
Ltac in_range :=
  symmetry; apply andb_true_iff; split;
  [apply Z.leb_le|apply Z.ltb_lt]; simpl; lia.

Lemma le_bytes_length n v : length (le_bytes n v) = n.
Proof. revert v; induction n as [|n IH]; intros v; simpl; [done|by rewrite IH]. Qed.

Lemma le_bytes_is_byte n v : Forall is_byte (le_bytes n v).
Proof.
  revert v; induction n as [|n IH]; intros v; simpl; constructor; [|apply IH].
  unfold is_byte. apply Z.mod_pos_bound. lia.
Qed.

Lemma le_value_bound bs :
  Forall is_byte bs -> 0 <= le_value bs < 256 ^ Z.of_nat (length bs).
Proof.
  induction 1 as [|b bs Hb _ IH]; simpl length; simpl le_value; [simpl; lia|].
  rewrite Nat2Z.inj_succ, Z.pow_succ_r by lia.
  unfold is_byte in Hb. lia.
Qed.

Lemma le_bytes_le_value bs :
  Forall is_byte bs -> le_bytes (length bs) (le_value bs) = bs.
Proof.
  induction 1 as [|b bs Hb _ IH]; simpl; [done|].
  unfold is_byte in Hb.
  replace (b + 256 * le_value bs) with (b + le_value bs * 256) by lia.
  rewrite Z.mod_add, Z.div_add by lia.
  rewrite (Z.mod_small b 256), (Z.div_small b 256) by lia.
  rewrite Z.add_0_l. f_equal. exact IH.
Qed.

Lemma le_value_le_bytes n v : le_value (le_bytes n v) = v mod 256 ^ Z.of_nat n.
Proof.
  revert v; induction n as [|n IH]; intros v.
  - simpl. by rewrite Z.mod_1_r.
  - simpl le_bytes. simpl le_value. rewrite IH.
    rewrite Nat2Z.inj_succ, Z.pow_succ_r by lia.
    rewrite Z.rem_mul_r by lia. lia.
Qed.

Lemma le_bytes_app n m v :
  le_bytes (n + m) v = le_bytes n v ++ le_bytes m (v / 256 ^ Z.of_nat n).
Proof.
  revert v; induction n as [|n IH]; intros v.
  - simpl. by rewrite Z.div_1_r.
  - simpl le_bytes. rewrite IH. simpl. do 2 f_equal.
    rewrite Nat2Z.inj_succ, Z.pow_succ_r by lia.
    rewrite Z.div_div by lia. done.
Qed.

Lemma le_bytes_zero n : le_bytes n 0 = replicate n 0.
Proof.
  induction n as [|n IH]; [done|].
  change (le_bytes (S n) 0) with (0 mod 256 :: le_bytes n (0 / 256)).
  rewrite Z.mod_0_l, Z.div_0_l, IH by lia. done.
Qed.

Lemma bswap32_bound v : 0 <= bswap32 v < 2 ^ 32.
Proof.
  unfold bswap32, be_value.
  pose proof (le_value_bound (rev (le_bytes 4 v))) as Hb.
  rewrite length_rev, le_bytes_length in Hb.
  apply Hb. apply Forall_rev, le_bytes_is_byte.
Qed.

Lemma le_bytes_bswap32 v : le_bytes 4 (bswap32 v) = be_bytes 4 v.
Proof.
  unfold bswap32, be_value, be_bytes.
  pose proof (le_bytes_le_value (rev (le_bytes 4 v))) as Hb.
  rewrite length_rev, le_bytes_length in Hb.
  apply Hb. apply Forall_rev, le_bytes_is_byte.
Qed.

Lemma bswap32_involutive v : 0 <= v < 2 ^ 32 -> bswap32 (bswap32 v) = v.
Proof.
  intros Hv. unfold bswap32 at 1. rewrite le_bytes_bswap32.
  unfold be_value, be_bytes. rewrite rev_involutive, le_value_le_bytes.
  apply Z.mod_small. change (256 ^ Z.of_nat 4) with (2 ^ 32). lia.
Qed.

Lemma ntohl_htonl pf v :
  0 <= v < 2 ^ 32 ->
  exists x, htonl pf v = Some x /\ 0 <= x < 2 ^ 32 /\ ntohl pf x = Some v.
Proof.
  intros Hv. unfold ntohl, htonl.
  replace ((0 <=? v) && (v <? 2 ^ 32)) with true
    by (symmetry; apply andb_true_iff; split; [apply Z.leb_le|apply Z.ltb_lt]; lia).
  destruct (big_endian pf).
  - exists v. split; [done|]. split; [done|].
    replace ((0 <=? v) && (v <? 2 ^ 32)) with true
      by (symmetry; apply andb_true_iff; split; [apply Z.leb_le|apply Z.ltb_lt]; lia).
    done.
  - exists (bswap32 v). pose proof (bswap32_bound v) as Hb.
    split; [done|]. split; [done|].
    replace ((0 <=? bswap32 v) && (bswap32 v <? 2 ^ 32)) with true
      by (symmetry; apply andb_true_iff; split; [apply Z.leb_le|apply Z.ltb_lt]; lia).
    by rewrite bswap32_involutive.
Qed.

Lemma unpack_pack_L pf x :
  0 <= x < 2 ^ 32 ->
  exists hdr, pack_L pf x = Some hdr /\ length hdr = sizeof_long pf /\
              unpack_L pf hdr = Some x.
Proof.
  intros Hx. unfold pack_L, unpack_L.
  assert (Hpow : 2 ^ 32 <= 256 ^ Z.of_nat (sizeof_long pf)).
  { unfold sizeof_long. destruct (long64 pf); simpl; lia. }
  replace ((0 <=? x) && (x <? 256 ^ Z.of_nat (sizeof_long pf))) with true
    by (symmetry; apply andb_true_iff; split; [apply Z.leb_le|apply Z.ltb_lt]; lia).
  eexists; split; [done|].
  assert (Hval : le_value (le_bytes (sizeof_long pf) x) = x).
  { rewrite le_value_le_bytes. apply Z.mod_small. lia. }
  destruct (big_endian pf); unfold be_bytes, be_value.
  - rewrite length_rev, le_bytes_length, Nat.eqb_refl, rev_involutive, Hval. done.
  - rewrite le_bytes_length, Nat.eqb_refl, Hval. done.
Qed.

Lemma frame_header_decodes pf buffer :
  Z.of_nat (length buffer) < 2 ^ 32 ->
  exists hdr, frame_header pf buffer = Some hdr /\
              length hdr = sizeof_long pf /\
              unpack_L pf hdr ≫= ntohl pf = Some (Z.of_nat (length buffer)).
Proof.
  intros Hlen. unfold frame_header.
  destruct (ntohl_htonl pf (Z.of_nat (length buffer))) as (x & Hx & Hxb & Hback); [lia|].
  destruct (unpack_pack_L pf x Hxb) as (hdr & Hp & Hl & Hu).
  exists hdr. rewrite Hx. simpl. rewrite Hp. split; [done|]. split; [done|].
  rewrite Hu. simpl. done.
Qed.

(** ** Reassembly *)

Lemma recv_loop_complete fuel : forall ch buf size,
  chunked ch ->
  (size - length buf <= length (concat ch))%nat ->
  (size - length buf <= fuel)%nat ->
  exists ch',
    recv_loop fuel ch buf size
      = Some (buf ++ take (size - length buf) (concat ch), ch') /\
    concat ch' = drop (size - length buf) (concat ch) /\
    chunked ch'.
Proof.
  induction fuel as [|fuel IH]; intros ch buf size Hch Hlen Hfuel.
  - assert (Hz : (size - length buf = 0)%nat) by lia.
    exists ch. simpl. rewrite Hz.
    replace (size <=? length buf)%nat with true by (symmetry; apply Nat.leb_le; lia).
    simpl. by rewrite app_nil_r.
  - simpl. destruct (size <=? length buf)%nat eqn:Hdone.
    + apply Nat.leb_le in Hdone.
      replace (size - length buf)%nat with 0%nat by lia.
      exists ch. simpl. by rewrite app_nil_r.
    + apply Nat.leb_gt in Hdone.
      destruct ch as [|c rest]; [simpl in Hlen; lia|].
      inversion Hch as [|? ? Hc Hrest]; subst.
      simpl recv. simpl concat in *.
      destruct (length c <=? size - length buf)%nat eqn:Hfit.
      * apply Nat.leb_le in Hfit.
        rewrite length_app in Hlen.
        destruct (IH rest (buf ++ c) size Hrest) as (ch' & Hrun & Hcat & Hne).
        { rewrite length_app. lia. }
        { rewrite length_app. destruct c; [done|]. simpl in *. lia. }
        exists ch'. rewrite Hrun. rewrite length_app in *.
        replace (size - (length buf + length c))%nat
          with (size - length buf - length c)%nat in * by lia.
        rewrite take_app, drop_app.
        rewrite (take_ge c), (drop_ge c) by lia.
        rewrite <- app_assoc. done.
      * apply Nat.leb_gt in Hfit.
        destruct (IH (drop (size - length buf) c :: rest)
                     (buf ++ take (size - length buf) c) size)
          as (ch' & Hrun & Hcat & Hne).
        { constructor; [|done]. intros Hnil.
          apply (f_equal length) in Hnil. rewrite length_drop in Hnil.
          simpl in Hnil. lia. }
        { rewrite length_app, length_take. lia. }
        { rewrite length_app, length_take. lia. }
        exists ch'. rewrite Hrun.
        rewrite length_app, length_take in *.
        replace (size - (length buf + (size - length buf) `min` length c))%nat
          with 0%nat in * by lia.
        simpl in Hcat. rewrite take_0, app_nil_r in *.
        rewrite take_app, drop_app.
        replace (size - length buf - length c)%nat with 0%nat by lia.
        rewrite take_0, drop_0, app_nil_r. done.
Qed.

Section TransportFacts.
Context `{Pickle}.

(** The frame [send_message] writes on an open channel. *)
Lemma send_message_open pf bytes payload :
  Z.of_nat (length (dumps payload)) < 2 ^ 32 ->
  exists hdr,
    frame_header pf (dumps payload) = Some hdr /\
    length hdr = sizeof_long pf /\
    unpack_L pf hdr ≫= ntohl pf = Some (Z.of_nat (length (dumps payload))) /\
    send_message pf {| w_open := true; w_bytes := bytes |} payload
      = ({| w_open := true; w_bytes := (bytes ++ hdr) ++ dumps payload |}, true).
Proof.
  intros Hlen.
  destruct (frame_header_decodes pf (dumps payload) Hlen) as (hdr & Hh & Hl & Hd).
  exists hdr. repeat split; try done.
  unfold send_message. rewrite Hh. done.
Qed.

(** A first read that returns fewer bytes than the header makes
    [receive_message] give up with the empty string. *)
Lemma receive_message_short_header pf fuel c rest :
  c <> [] -> (length c < sizeof_long pf)%nat ->
  receive_message pf fuel (c :: rest) = Some (EmptyString, rest).
Proof.
  intros Hc Hshort. unfold receive_message. simpl recv.
  replace (length c <=? sizeof_long pf)%nat with true
    by (symmetry; apply Nat.leb_le; lia).
  destruct c as [|b c']; [done|].
  unfold unpack_L.
  replace (length (b :: c') =? sizeof_long pf)%nat with false
    by (symmetry; apply Nat.eqb_neq; lia).
  done.
Qed.

(** A closed peer. *)
Lemma receive_message_closed pf fuel :
  receive_message pf fuel [] = Some (EmptyString, []).
Proof. done. Qed.

(** When the first read returns the whole header, the announced number of
    bytes is reassembled from whatever chunks follow and decoded. *)
Lemma receive_message_frame pf fuel ch hdr body tail :
  chunked ch ->
  concat ch = hdr ++ body ++ tail ->
  length hdr = sizeof_long pf ->
  unpack_L pf hdr ≫= ntohl pf = Some (Z.of_nat (length body)) ->
  (sizeof_long pf <= length (hd [] ch))%nat ->
  (length body <= fuel)%nat ->
  exists ch',
    receive_message pf fuel ch
      = Some (match loads body with Some s => s | None => EmptyString end, ch') /\
    concat ch' = tail /\ chunked ch'.
Proof.
  intros Hch Hcat Hl Hdec Hfirst Hfuel.
  assert (Hpos : (0 < sizeof_long pf)%nat)
    by (unfold sizeof_long; destruct (long64 pf); lia).
  destruct ch as [|c rest]; [simpl in Hfirst; lia|].
  simpl in Hfirst. simpl concat in Hcat.
  inversion Hch as [|? ? Hc Hrest]; subst.
  assert (Hhdr : take (sizeof_long pf) c = hdr).
  { apply (f_equal (take (sizeof_long pf))) in Hcat.
    rewrite take_app_le in Hcat by lia.
    rewrite take_app_length' in Hcat by done. done. }
  assert (Hafter : drop (sizeof_long pf) c ++ concat rest = body ++ tail).
  { apply (f_equal (drop (sizeof_long pf))) in Hcat.
    rewrite drop_app_le in Hcat by lia.
    rewrite drop_app_length' in Hcat by done. done. }
  unfold receive_message. simpl recv.
  destruct (length c <=? sizeof_long pf)%nat eqn:Hfit.
  - apply Nat.leb_le in Hfit.
    rewrite take_ge in Hhdr by lia. rewrite drop_ge in Hafter by lia.
    simpl in Hafter. subst c.
    destruct hdr as [|b hdr']; [simpl in Hl; lia|].
    rewrite Hdec. rewrite Nat2Z.id.
    destruct (recv_loop_complete fuel rest [] (length body) Hrest)
      as (ch' & Hrun & Hcat' & Hne); simpl length; try lia.
    { rewrite Hafter, length_app. lia. }
    rewrite Hrun. simpl. rewrite Nat.sub_0_r in *.
    rewrite Hafter in *. rewrite take_app_length, drop_app_length in *.
    exists ch'. done.
  - apply Nat.leb_gt in Hfit.
    rewrite Hhdr.
    destruct hdr as [|b hdr']; [simpl in Hl; lia|].
    rewrite Hdec. rewrite Nat2Z.id.
    destruct (recv_loop_complete fuel (drop (sizeof_long pf) c :: rest) []
                (length body)) as (ch' & Hrun & Hcat' & Hne); simpl length; try lia.
    { constructor; [|done]. intros Hnil.
      apply (f_equal length) in Hnil. rewrite length_drop in Hnil.
      simpl in Hnil. lia. }
    { simpl concat. rewrite Hafter, length_app. lia. }
    rewrite Hrun. simpl concat in *. simpl. rewrite Nat.sub_0_r in *.
    rewrite Hafter in *. rewrite take_app_length, drop_app_length in *.
    exists ch'. done.
Qed.

(** Round trip of one frame when the header arrives in one read. *)
Lemma receive_send_whole_header pf fuel ch payload :
  Z.of_nat (length (dumps payload)) < 2 ^ 32 ->
  chunked ch ->
  concat ch = frame_bytes pf payload ->
  (sizeof_long pf <= length (hd [] ch))%nat ->
  (length (dumps payload) <= fuel)%nat ->
  receive_message pf fuel ch = Some (payload, []).
Proof.
  intros Hlen Hch Hcat Hfirst Hfuel.
  destruct (send_message_open pf [] payload Hlen) as (hdr & _ & Hl & Hdec & Hsend).
  unfold frame_bytes in Hcat. rewrite Hsend in Hcat. simpl in Hcat.
  destruct (receive_message_frame pf fuel ch hdr (dumps payload) [])
    as (ch' & Hrun & Hcat' & Hne); try done.
  { by rewrite app_nil_r. }
  rewrite Hrun, loads_dumps.
  destruct ch' as [|c ch'']; [done|].
  inversion Hne; subst. simpl in Hcat'.
  by apply app_eq_nil in Hcat' as [-> _].
Qed.

End TransportFacts.

(** ** Rate limiter *)

Lemma prune_In rl now times t :
  In t (prune rl now times) <-> In t times /\ now - t < time_window rl.
Proof.
  unfold prune. rewrite filter_In. by rewrite Z.ltb_lt.
Qed.

Lemma prune_length rl now times :
  (length (prune rl now times) <= length times)%nat.
Proof.
  unfold prune. induction times as [|t times IH]; simpl; [lia|].
  destruct (now - t <? time_window rl); simpl; lia.
Qed.

Lemma prune_app rl now l1 l2 :
  prune rl now (l1 ++ l2) = prune rl now l1 ++ prune rl now l2.
Proof. unfold prune. apply List.filter_app. Qed.

Lemma prune_all rl now times :
  (forall t, In t times -> now - t < time_window rl) ->
  prune rl now times = times.
Proof.
  unfold prune. induction times as [|t times IH]; intros Hall; simpl; [done|].
  replace (now - t <? time_window rl) with true
    by (symmetry; apply Z.ltb_lt, Hall; by left).
  rewrite IH; [done|]. intros t' Ht'. apply Hall. by right.
Qed.

Lemma prune_drops rl now times t :
  In t times -> time_window rl <= now - t ->
  (length (prune rl now times) < length times)%nat.
Proof.
  unfold prune. induction times as [|t' times IH]; intros Hin Hold; [done|].
  simpl. destruct Hin as [->|Hin].
  - replace (now - t <? time_window rl) with false
      by (symmetry; apply Z.ltb_ge; lia).
    pose proof (prune_length rl now times) as Hle. unfold prune in Hle. lia.
  - specialize (IH Hin Hold).
    destruct (now - t' <? time_window rl); simpl; lia.
Qed.

Lemma prune_sublist rl now l1 l2 :
  sublist l1 l2 -> sublist (prune rl now l1) (prune rl now l2).
Proof.
  unfold prune. induction 1 as [|x l1 l2 _ IH|x l1 l2 _ IH]; simpl.
  - constructor.
  - destruct (now - x <? time_window rl); [by constructor|done].
  - destruct (now - x <? time_window rl); [by constructor|done].
Qed.

Lemma prune_sublist_self rl now l : sublist (prune rl now l) l.
Proof.
  unfold prune. induction l as [|x l IH]; simpl; [constructor|].
  destruct (now - x <? time_window rl); by constructor.
Qed.

Lemma check_rate_params rl now c :
  max_messages (fst (check_rate rl now c)) = max_messages rl /\
  time_window (fst (check_rate rl now c)) = time_window rl.
Proof.
  unfold check_rate.
  by destruct (Z.of_nat (length (prune rl now (default [] (message_times rl !! c))))
               >=? max_messages rl).
Qed.

Lemma check_rate_window rl now c :
  window (fst (check_rate rl now c)) c =
    if snd (check_rate rl now c)
    then prune rl now (window rl c) ++ [now]
    else prune rl now (window rl c).
Proof.
  unfold check_rate, window.
  destruct (Z.of_nat (length (prune rl now (default [] (message_times rl !! c))))
            >=? max_messages rl); simpl; by rewrite lookup_insert_eq.
Qed.

Lemma check_rate_other rl now c c' :
  c <> c' -> window (fst (check_rate rl now c)) c' = window rl c'.
Proof.
  intros Hne. unfold check_rate, window.
  destruct (Z.of_nat (length (prune rl now (default [] (message_times rl !! c))))
            >=? max_messages rl); simpl; by rewrite lookup_insert_ne.
Qed.

Lemma check_rate_verdict rl now c :
  snd (check_rate rl now c) =
    negb (Z.of_nat (length (prune rl now (window rl c))) >=? max_messages rl).
Proof.
  unfold check_rate, window.
  by destruct (Z.of_nat (length (prune rl now (default [] (message_times rl !! c))))
               >=? max_messages rl).
Qed.

Lemma check_rate_bounded rl now c id :
  0 <= max_messages rl ->
  Z.of_nat (length (window rl id)) <= max_messages rl ->
  Z.of_nat (length (window (fst (check_rate rl now c)) id)) <= max_messages rl.
Proof.
  intros HN Hb.
  destruct (decide (c = id)) as [->|Hne]; [|by rewrite check_rate_other].
  rewrite check_rate_window, check_rate_verdict.
  pose proof (prune_length rl now (window rl id)) as Hle.
  destruct (Z.of_nat (length (prune rl now (window rl id))) >=? max_messages rl) eqn:Hc;
    simpl.
  - lia.
  - rewrite length_app. simpl. rewrite Z.geb_leb in Hc. apply Z.leb_gt in Hc. lia.
Qed.

Lemma remove_client_window rl c id :
  window (remove_client rl c) id = if decide (c = id) then [] else window rl id.
Proof.
  unfold remove_client, window. simpl.
  destruct (decide (c = id)) as [->|Hne].
  - by rewrite lookup_delete_eq.
  - by rewrite lookup_delete_ne.
Qed.

Lemma rate_step_params rl op :
  max_messages (rate_step rl op) = max_messages rl /\
  time_window (rate_step rl op) = time_window rl.
Proof. destruct op; simpl; [apply check_rate_params|done]. Qed.

Lemma rate_step_bounded rl op id :
  0 <= max_messages rl ->
  Z.of_nat (length (window rl id)) <= max_messages rl ->
  Z.of_nat (length (window (rate_step rl op) id)) <= max_messages rl.
Proof.
  intros HN Hb. destruct op as [t c|c]; simpl.
  - by apply check_rate_bounded.
  - rewrite remove_client_window. destruct (decide (c = id)); simpl; lia.
Qed.

Lemma rate_steps_bounded ops : forall rl id,
  0 <= max_messages rl ->
  (forall id, Z.of_nat (length (window rl id)) <= max_messages rl) ->
  Z.of_nat (length (window (foldl rate_step rl ops) id)) <= max_messages rl.
Proof.
  induction ops as [|op ops IH]; intros rl id HN Hb; simpl; [apply Hb|].
  destruct (rate_step_params rl op) as [HN' _].
  rewrite <- HN'. apply IH; rewrite HN'; [done|].
  intros id'. by apply rate_step_bounded.
Qed.

Lemma rate_steps_params ops : forall rl,
  max_messages (foldl rate_step rl ops) = max_messages rl /\
  time_window (foldl rate_step rl ops) = time_window rl.
Proof.
  induction ops as [|op ops IH]; intros rl; simpl; [done|].
  destruct (IH (rate_step rl op)) as [-> ->]. apply rate_step_params.
Qed.

Lemma check_all_cons rl id t rest :
  fst (check_all rl id (t :: rest))
    = fst (check_all (fst (check_rate rl t id)) id rest) /\
  snd (check_all rl id (t :: rest))
    = snd (check_rate rl t id) :: snd (check_all (fst (check_rate rl t id)) id rest).
Proof.
  simpl. destruct (check_rate rl t id) as [rl1 ok]. simpl.
  by destruct (check_all rl1 id rest) as [rl2 oks].
Qed.

Lemma check_all_params ts : forall rl id,
  max_messages (fst (check_all rl id ts)) = max_messages rl /\
  time_window (fst (check_all rl id ts)) = time_window rl.
Proof.
  induction ts as [|t ts IH]; intros rl id; [done|].
  destruct (check_all_cons rl id t ts) as [-> _].
  destruct (IH (fst (check_rate rl t id)) id) as [-> ->].
  apply check_rate_params.
Qed.

(** Requests admitted close together all stay recorded, in order. *)
Lemma check_all_keeps_burst id ts : forall rl w0 pre,
  window rl id = w0 ++ pre ->
  (forall t t', In t (pre ++ ts) -> In t' ts -> t' - t < time_window rl) ->
  snd (check_all rl id ts) = replicate (length ts) true ->
  exists w', window (fst (check_all rl id ts)) id = w' ++ pre ++ ts.
Proof.
  induction ts as [|t1 ts IH]; intros rl w0 pre Hw Hclose Hadm.
  - exists w0. simpl. by rewrite app_nil_r.
  - destruct (check_all_cons rl id t1 ts) as [Hfst Hsnd].
    rewrite Hsnd in Hadm. simpl in Hadm. injection Hadm as Hadm1 Hadm.
    rewrite Hfst.
    destruct (check_rate_params rl t1 id) as [_ HW].
    destruct (IH (fst (check_rate rl t1 id)) (prune rl t1 w0) (pre ++ [t1]))
      as (w' & Hw'); [| |done|].
    + rewrite check_rate_window, Hadm1, Hw, prune_app.
      rewrite (prune_all rl t1 pre); [by rewrite app_assoc|].
      intros t Ht. apply Hclose; [apply in_or_app; by left|by left].
    + rewrite HW. intros t t' Ht Ht'. apply Hclose; [|by right].
      rewrite <- app_assoc in Ht. done.
    + exists w'. rewrite Hw'. by rewrite <- app_assoc.
Qed.

(** From a window that only holds earlier requests, only requests of the
    run are recorded afterwards. *)
Lemma check_all_sublist id ts : forall rl pre,
  sublist (window rl id) pre ->
  sublist (window (fst (check_all rl id ts)) id) (pre ++ ts).
Proof.
  induction ts as [|t1 ts IH]; intros rl pre Hsub.
  - simpl. by rewrite app_nil_r.
  - destruct (check_all_cons rl id t1 ts) as [-> _].
    replace (pre ++ t1 :: ts) with ((pre ++ [t1]) ++ ts) by by rewrite <- app_assoc.
    apply IH. rewrite check_rate_window.
    assert (Hp : sublist (prune rl t1 (window rl id)) pre).
    { etrans; [apply prune_sublist_self|exact Hsub]. }
    destruct (snd (check_rate rl t1 id)).
    + by apply sublist_app.
    + by apply sublist_inserts_r.
Qed.

(** C8: from a fresh limiter with a non-negative maximum [N], after any
    sequence of checks (and removals) every identity's stored list of
    timestamps has at most [N] entries: a denied check only stores the
    pruned list, an admitted one appends to fewer than [N] survivors. *)
Theorem window_at_most_max (N W : Z) (ops : list RateOp) (id : string) :
  0 <= N ->
  let rl := foldl rate_step (RateLimiter_init N W) ops in
  Z.of_nat (length (window rl id)) <= N /\
  forall now,
    let kept := prune rl now (window rl id) in
    if snd (check_rate rl now id)
    then Z.of_nat (length kept) < N /\
         window (fst (check_rate rl now id)) id = kept ++ [now]
    else window (fst (check_rate rl now id)) id = kept.
Proof.
  intros HN rl. split.
  - apply (rate_steps_bounded ops (RateLimiter_init N W) id HN).
    intros id'. unfold window. simpl. rewrite lookup_empty. simpl. lia.
  - intros now kept. rewrite check_rate_window.
    rewrite check_rate_verdict. fold kept.
    destruct (rate_steps_params ops (RateLimiter_init N W)) as [HNeq _].
    fold rl in HNeq. rewrite HNeq. simpl.
    destruct (Z.of_nat (length kept) >=? N) eqn:Hc; simpl; [done|].
    rewrite Z.geb_leb in Hc. apply Z.leb_gt in Hc. done.
Qed.

Lemma window_at_most_max_witness :
  0 <= MESSAGE_RATE_LIMIT /\
  Z.of_nat (length (window
    (foldl rate_step (RateLimiter_init MESSAGE_RATE_LIMIT RATE_LIMIT_WINDOW)
       [OpCheck 1 "bob"; OpCheck 2 "bob"; OpRemove "amy"; OpCheck 70 "bob"])
    "bob")) <= MESSAGE_RATE_LIMIT.
Proof.
  split; [unfold MESSAGE_RATE_LIMIT; lia|].
  apply (window_at_most_max MESSAGE_RATE_LIMIT RATE_LIMIT_WINDOW).
  unfold MESSAGE_RATE_LIMIT; lia.
Defined.

(** [N] requests admitted close together are exactly what is recorded
    afterwards: the last of them was admitted, so nothing older was left. *)
Lemma check_all_burst_exact id ts : forall rl w0 pre,
  window rl id = w0 ++ pre ->
  (forall t t', In t (pre ++ ts) -> In t' ts -> t' - t < time_window rl) ->
  snd (check_all rl id ts) = replicate (length ts) true ->
  ts <> [] ->
  Z.of_nat (length (pre ++ ts)) = max_messages rl ->
  window (fst (check_all rl id ts)) id = pre ++ ts.
Proof.
  induction ts as [|t1 ts IH]; intros rl w0 pre Hw Hclose Hadm Hne HN; [done|].
  destruct (check_all_cons rl id t1 ts) as [Hfst Hsnd].
  rewrite Hsnd in Hadm. simpl in Hadm. injection Hadm as Hadm1 Hadm.
  rewrite Hfst.
  destruct (check_rate_params rl t1 id) as [HN1 HW1].
  assert (Hpre : prune rl t1 pre = pre).
  { apply prune_all. intros t Ht.
    apply Hclose; [apply in_or_app; by left|by left]. }
  assert (Hw1 : window (fst (check_rate rl t1 id)) id
                = prune rl t1 w0 ++ pre ++ [t1]).
  { by rewrite check_rate_window, Hadm1, Hw, prune_app, Hpre, app_assoc. }
  destruct ts as [|t2 rest].
  - simpl fst. rewrite Hw1.
    rewrite check_rate_verdict, Hw, prune_app, Hpre in Hadm1.
    apply negb_true_iff in Hadm1. rewrite Z.geb_leb in Hadm1.
    apply Z.leb_gt in Hadm1. rewrite !length_app in *. simpl in HN.
    destruct (prune rl t1 w0) as [|x l]; [done|simpl in Hadm1; lia].
  - rewrite (IH (fst (check_rate rl t1 id)) (prune rl t1 w0) (pre ++ [t1])).
    + by rewrite <- app_assoc.
    + by rewrite Hw1, app_assoc.
    + rewrite HW1. intros t t' Ht Ht'. apply Hclose; [|by right].
      rewrite <- app_assoc in Ht. done.
    + done.
    + done.
    + rewrite HN1, <- HN. by rewrite <- app_assoc.
Qed.

(** C4: every check prunes the timestamps at least a window old, denies
    without recording when at least the maximum remain and otherwise records
    the current time and admits.  Hence, whatever was recorded before, after
    [N] admitted requests one more request while all of them are less than
    a window old is denied; and a request made a window or more after the
    oldest of them is admitted again. *)
Theorem check_rate_sliding_window (rl : RateLimiter) (id : string) (ts : list Z)
  (now later : Z) :
  Z.of_nat (length ts) = max_messages rl ->
  snd (check_all rl id ts) = replicate (length ts) true ->
  let rl' := fst (check_all rl id ts) in
  (forall r t c,
      let kept := prune r t (window r c) in
      (forall x, In x kept <-> In x (window r c) /\ t - x < time_window r) /\
      snd (check_rate r t c)
        = negb (Z.of_nat (length kept) >=? max_messages r) /\
      window (fst (check_rate r t c)) c
        = (if snd (check_rate r t c) then kept ++ [t] else kept)) /\
  ((forall t t', In t ts -> In t' (ts ++ [now]) -> t' - t < time_window rl) ->
   snd (check_rate rl' now id) = false /\
   (forall t1, head ts = Some t1 -> time_window rl <= later - t1 ->
    snd (check_rate (fst (check_rate rl' now id)) later id) = true)).
Proof.
  intros HN Hadm rl'.
  destruct (check_all_params ts rl id) as [HN' HW']. fold rl' in HN', HW'.
  split.
  { intros r t c kept. split; [intros x; apply prune_In|].
    split; [apply check_rate_verdict|apply check_rate_window]. }
  intros Hclose.
  assert (Hdeny : snd (check_rate rl' now id) = false).
  { destruct (check_all_keeps_burst id ts rl (window rl id) []) as (w' & Hw');
      [by rewrite app_nil_r| |done|].
    { intros t t' Ht Ht'. apply Hclose; [done|apply in_or_app; by left]. }
    fold rl' in Hw'. simpl in Hw'.
    rewrite check_rate_verdict, Hw', prune_app.
    rewrite (prune_all rl' now ts).
    - rewrite length_app, HN'.
      replace (Z.of_nat (length (prune rl' now w') + length ts) >=? max_messages rl)
        with true; [done|].
      symmetry. rewrite Z.geb_leb. apply Z.leb_le. lia.
    - intros t Ht. rewrite HW'. apply Hclose; [done|].
      apply in_or_app. right. by left. }
  split; [done|].
  intros t1 Hhd Hold.
  destruct ts as [|t1' rest]; [done|]. simpl in Hhd. injection Hhd as ->.
  assert (Hexact : window rl' id = t1 :: rest).
  { apply (check_all_burst_exact id (t1 :: rest) rl (window rl id) []);
      [by rewrite app_nil_r| |done|done|done].
    intros t t' Ht Ht'. apply Hclose; [done|apply in_or_app; by left]. }
  destruct (check_rate_params rl' now id) as [HN2 HW2].
  rewrite check_rate_verdict, check_rate_window, Hdeny, HN2, HN', Hexact.
  set (rl2 := fst (check_rate rl' now id)) in *.
  rewrite (prune_all rl' now (t1 :: rest)).
  2:{ intros t Ht. rewrite HW'. apply Hclose; [done|].
      apply in_or_app. right. by left. }
  assert (Hlen : (length (prune rl2 later (t1 :: rest)) <= length rest)%nat).
  { unfold prune at 1. simpl.
    replace (later - t1 <? time_window rl2) with false
      by (symmetry; apply Z.ltb_ge; rewrite HW2, HW'; lia).
    apply (prune_length rl2 later rest). }
  replace (Z.of_nat (length (prune rl2 later (t1 :: rest))) >=? max_messages rl)
    with false; [done|].
  symmetry. rewrite Z.geb_leb. apply Z.leb_gt.
  simpl length in HN. lia.
Qed.

Lemma check_rate_sliding_window_witness :
  let rl := fst (check_all (RateLimiter_init 3 RATE_LIMIT_WINDOW) "bob" [1; 2]) in
  let rl' := fst (check_all rl "bob" [100; 101; 102]) in
  window rl "bob" = [1; 2] /\
  snd (check_rate rl' 103 "bob") = false /\
  snd (check_rate (fst (check_rate rl' 103 "bob")) 160 "bob") = true.
Proof.
  intros rl rl'. split; [reflexivity|].
  destruct (check_rate_sliding_window rl "bob" [100; 101; 102] 103 160)
    as [_ Hscen].
  - reflexivity.
  - vm_compute. reflexivity.
  - destruct Hscen as [Hdeny Hagain].
    + intros t t' Ht Ht'.
      replace (time_window rl) with 60 by reflexivity. simpl in *.
      destruct Ht as [<-|[<-|[<-|[]]]];
        destruct Ht' as [<-|[<-|[<-|[<-|[]]]]]; lia.
    + split; [exact Hdeny|].
      apply (Hagain 100); [reflexivity|].
      replace (time_window rl) with 60 by reflexivity. lia.
Defined.

(** ** Frame layout and round trip *)

Lemma frame_header_wire pf buffer :
  Z.of_nat (length buffer) < 2 ^ 32 ->
  frame_header pf buffer = Some (wire_header pf (Z.of_nat (length buffer))).
Proof.
  unfold frame_header.
  generalize (Z.of_nat (length buffer)) (Nat2Z.is_nonneg (length buffer)).
  intros n Hn0 Hlen.
  pose proof (bswap32_bound n) as Hb.
  unfold htonl.
  replace ((0 <=? n) && (n <? 2 ^ 32)) with true by in_range.
  destruct (big_endian pf) eqn:Hend.
  - change (pack_L pf n = Some (wire_header pf n)).
    unfold pack_L, wire_header, sizeof_long. rewrite Hend.
    destruct (long64 pf).
    + replace ((0 <=? n) && (n <? 256 ^ Z.of_nat 8)) with true by in_range.
      f_equal. unfold be_bytes at 1.
      change (le_bytes 8 n) with (le_bytes (4 + 4) n).
      rewrite (le_bytes_app 4 4 n), rev_app_distr.
      change (256 ^ Z.of_nat 4) with (2 ^ 32).
      rewrite (Z.div_small n) by lia. by rewrite le_bytes_zero.
    + by replace ((0 <=? n) && (n <? 256 ^ Z.of_nat 4)) with true by in_range.
  - change (pack_L pf (bswap32 n) = Some (wire_header pf n)).
    unfold pack_L, wire_header, sizeof_long. rewrite Hend.
    destruct (long64 pf).
    + replace ((0 <=? bswap32 n) && (bswap32 n <? 256 ^ Z.of_nat 8)) with true
        by in_range.
      f_equal. change (le_bytes 8 (bswap32 n)) with (le_bytes (4 + 4) (bswap32 n)).
      rewrite (le_bytes_app 4 4 (bswap32 n)).
      change (256 ^ Z.of_nat 4) with (2 ^ 32).
      rewrite (Z.div_small (bswap32 n)) by lia.
      by rewrite le_bytes_zero, le_bytes_bswap32.
    + replace ((0 <=? bswap32 n) && (bswap32 n <? 256 ^ Z.of_nat 4)) with true
        by in_range.
      by rewrite le_bytes_bswap32.
Qed.

Lemma wire_header_length pf n : length (wire_header pf n) = sizeof_long pf.
Proof.
  unfold wire_header, sizeof_long, be_bytes.
  destruct (long64 pf), (big_endian pf);
    rewrite ?length_app, ?length_rev, ?le_bytes_length, ?length_replicate; done.
Qed.

Section FrameClaims.
Context `{Pickle}.

(** C7 (as the code has it): a frame is a length header as wide as the
    platform's [unsigned long] (4 bytes, or 8 on LP64) carrying the 32-bit
    network-order length of the pickled payload (zero-padded on the 8-byte
    platforms), followed by exactly that many payload bytes; and
    [receive_message], once its first read returns a whole header,
    consumes that header and exactly the announced payload bytes. *)
Theorem frame_layout pf payload fuel ch tail :
  Z.of_nat (length (dumps payload)) < 2 ^ 32 ->
  chunked ch ->
  concat ch = frame_bytes pf payload ++ tail ->
  (sizeof_long pf <= length (hd [] ch))%nat ->
  (length (dumps payload) <= fuel)%nat ->
  let header := wire_header pf (Z.of_nat (length (dumps payload))) in
  frame_bytes pf payload = header ++ dumps payload /\
  length header = sizeof_long pf /\
  (long64 pf = false ->
   header = be_bytes 4 (Z.of_nat (length (dumps payload)))) /\
  exists ch', receive_message pf fuel ch = Some (payload, ch') /\
              concat ch' = tail.
Proof.
  intros Hlen Hch Hcat Hfirst Hfuel header.
  destruct (send_message_open pf [] payload Hlen) as (hdr & Hh & Hl & Hdec & Hsend).
  rewrite (frame_header_wire pf _ Hlen) in Hh. injection Hh as <-.
  assert (Hframe : frame_bytes pf payload = header ++ dumps payload).
  { unfold frame_bytes. by rewrite Hsend. }
  split; [done|]. split; [apply wire_header_length|].
  split.
  { intros H32. unfold header, wire_header. by rewrite H32. }
  rewrite Hframe, <- app_assoc in Hcat.
  destruct (receive_message_frame pf fuel ch header (dumps payload) tail)
    as (ch' & Hrun & Hcat' & _); try done.
  exists ch'. by rewrite Hrun, loads_dumps.
Qed.

End FrameClaims.

Lemma frame_layout_witness :
  frame_bytes linux_x86_64 "hi"
    = [0; 0; 0; 4; 0; 0; 0; 0] ++ dumps "hi" /\
  exists ch',
    receive_message linux_x86_64 4
      [[0; 0; 0; 4; 0; 0; 0; 0; 128]; [104]; [105; 46; 7]] = Some ("hi", ch') /\
    concat ch' = [7].
Proof.
  destruct (frame_layout linux_x86_64 "hi" 4
              [[0; 0; 0; 4; 0; 0; 0; 0; 128]; [104]; [105; 46; 7]] [7])
    as (Hframe & _ & _ & Hrecv).
  - vm_compute. reflexivity.
  - repeat constructor; discriminate.
  - reflexivity.
  - vm_compute. lia.
  - vm_compute. lia.
  - split; [exact Hframe|exact Hrecv].
Defined.

(** C7 as stated fails where [unsigned long] has 8 bytes: the header of the
    frame for ["hi"] is not the 4-byte length. *)
Lemma frame_header_not_four_bytes_lp64 :
  frame_bytes linux_x86_64 "hi"
    <> be_bytes 4 (Z.of_nat (length (dumps "hi"))) ++ dumps "hi".
Proof. vm_compute. discriminate. Qed.

(** C3 at a stream that splits the header: the frame [send_message] wrote
    for ["hi"], read one byte at a time, comes back as the empty string. *)
Theorem roundtrip_lost_on_split_header (fuel : nat) :
  fst <$> receive_message linux_x86_64 fuel (bytewise (frame_bytes linux_x86_64 "hi"))
    = Some EmptyString /\
  concat (bytewise (frame_bytes linux_x86_64 "hi")) = frame_bytes linux_x86_64 "hi" /\
  snd (send_message linux_x86_64 {| w_open := true; w_bytes := [] |} "hi") = true.
Proof.
  split; [|split; reflexivity].
  change (bytewise (frame_bytes linux_x86_64 "hi"))
    with ([0] :: bytewise [0; 0; 4; 0; 0; 0; 0; 128; 104; 105; 46]).
  rewrite receive_message_short_header; [done|done|vm_compute; lia].
Qed.

(** ** The ordered dictionary *)

Section DictFacts.
Context {V : Type}.
Implicit Types (d : list (string * V)) (k : string) (v : V).

Lemma dict_get_None k d : Dict.get k d = None <-> ~ In k (Dict.keys d).
Proof.
  induction d as [|[k' v'] d IH]; simpl; [tauto|].
  destruct (String.eqb_spec k k') as [->|Hne].
  - split; [done|]. intros Hn. exfalso. apply Hn. by left.
  - rewrite IH. split; [intros Hn [?|?]; [congruence|done]|tauto].
Qed.

Lemma dict_get_In k v d : Dict.get k d = Some v -> In k (Dict.keys d).
Proof.
  intros Hg. destruct (in_dec String.string_dec k (Dict.keys d)) as [|Hn]; [done|].
  apply dict_get_None in Hn. congruence.
Qed.

Lemma dict_mem_false k d : Dict.mem k d = false <-> Dict.get k d = None.
Proof. unfold Dict.mem. destruct (Dict.get k d); split; congruence. Qed.

Lemma dict_get_set_eq k v d : Dict.get k (Dict.set k v d) = Some v.
Proof.
  induction d as [|[k' v'] d IH]; simpl.
  - by rewrite String.eqb_refl.
  - destruct (String.eqb_spec k k') as [->|Hne]; simpl.
    + by rewrite String.eqb_refl.
    + destruct (String.eqb_spec k k'); [done|exact IH].
Qed.

Lemma dict_get_set_ne k k' v d :
  k <> k' -> Dict.get k' (Dict.set k v d) = Dict.get k' d.
Proof.
  intros Hne. induction d as [|[k1 v1] d IH]; simpl.
  - destruct (String.eqb_spec k' k); [congruence|done].
  - destruct (String.eqb_spec k k1) as [->|Hne1]; simpl.
    + destruct (String.eqb_spec k' k1); [congruence|done].
    + destruct (String.eqb_spec k' k1); [done|exact IH].
Qed.

Lemma dict_keys_set_new k v d :
  Dict.get k d = None -> Dict.keys (Dict.set k v d) = Dict.keys d ++ [k].
Proof.
  induction d as [|[k' v'] d IH]; simpl; [done|].
  destruct (String.eqb_spec k k'); [done|]. intros Hg. simpl.
  by rewrite (IH Hg).
Qed.

Lemma dict_get_del_ne k k' d :
  k <> k' -> Dict.get k' (Dict.del k d) = Dict.get k' d.
Proof.
  intros Hne. induction d as [|[k1 v1] d IH]; simpl; [done|].
  destruct (String.eqb_spec k k1) as [->|Hne1]; simpl.
  - destruct (String.eqb_spec k' k1); [congruence|done].
  - destruct (String.eqb_spec k' k1); [done|exact IH].
Qed.

Lemma dict_keys_del_sub k k' d :
  In k' (Dict.keys (Dict.del k d)) -> In k' (Dict.keys d).
Proof.
  induction d as [|[k1 v1] d IH]; simpl; [done|].
  destruct (String.eqb_spec k k1); simpl; [tauto|].
  intros [?|?]; [by left|right; by apply IH].
Qed.

Lemma dict_get_del_eq k d :
  NoDup (Dict.keys d) -> Dict.get k (Dict.del k d) = None.
Proof.
  induction d as [|[k1 v1] d IH]; simpl; [done|].
  intros Hnd. apply NoDup_cons in Hnd as [Hnotin Hnd].
  destruct (String.eqb_spec k k1) as [->|Hne]; simpl.
  - apply dict_get_None. by rewrite <- list_elem_of_In.
  - destruct (String.eqb_spec k k1); [done|by apply IH].
Qed.

Lemma dict_NoDup_del k d :
  NoDup (Dict.keys d) -> NoDup (Dict.keys (Dict.del k d)).
Proof.
  induction d as [|[k1 v1] d IH]; simpl; [done|].
  intros Hnd. apply NoDup_cons in Hnd as [Hnotin Hnd].
  destruct (String.eqb_spec k k1); [done|]. simpl.
  apply NoDup_cons. split; [|by apply IH].
  rewrite list_elem_of_In in *. intros Hin. apply Hnotin.
  by apply dict_keys_del_sub in Hin.
Qed.

Lemma dict_NoDup_set_new k v d :
  Dict.get k d = None -> NoDup (Dict.keys d) -> NoDup (Dict.keys (Dict.set k v d)).
Proof.
  intros Hg Hnd. rewrite dict_keys_set_new by done.
  apply NoDup_app. split; [done|]. split; [|apply NoDup_singleton].
  intros x Hx Hx'. apply list_elem_of_singleton in Hx'. subst x.
  apply dict_get_None in Hg. apply Hg. by apply list_elem_of_In.
Qed.

End DictFacts.

(** ** What the broker's helpers send *)

Lemma set_sent_sent st : set_sent st (sent st) = st.
Proof. by destruct st. Qed.

Lemma set_sent_twice st s1 s2 : set_sent (set_sent st s1) s2 = set_sent st s2.
Proof. done. Qed.

Lemma send_to_set sock msg st :
  send_to sock msg st = set_sent st (sent st ++ [(sock, msg)]).
Proof. done. Qed.

Lemma broadcast_loop message exclude outs : forall acc,
  foldl (fun acc output =>
           if bool_decide (Some output = exclude) then acc
           else send_to output message acc) acc outs
  = set_sent acc (sent acc ++ notices message exclude outs).
Proof.
  induction outs as [|o outs IH]; intros acc; simpl.
  - unfold notices. simpl. by rewrite app_nil_r, set_sent_sent.
  - rewrite IH. unfold notices. simpl.
    destruct (bool_decide (Some o = exclude)); simpl; [done|].
    by rewrite <- app_assoc.
Qed.

Lemma broadcast_set message exclude st :
  broadcast message exclude st
  = set_sent st (sent st ++ notices message exclude (outputs st)).
Proof. apply broadcast_loop. Qed.

Lemma send_user_list_loop outs : forall acc,
  foldl (fun acc sock => send_user_list sock acc) acc outs
  = set_sent acc
      (sent acc ++ map (fun o => (o, user_list_frame (nickname_map acc))) outs).
Proof.
  induction outs as [|o outs IH]; intros acc; simpl.
  - by rewrite app_nil_r, set_sent_sent.
  - rewrite IH. simpl. by rewrite <- app_assoc.
Qed.

Lemma send_user_list_all_set st :
  send_user_list_all st
  = set_sent st
      (sent st ++ map (fun o => (o, user_list_frame (nickname_map st))) (outputs st)).
Proof. apply send_user_list_loop. Qed.

Lemma deliver_loop client_sock messages : forall acc,
  foldl (fun acc e => send_to client_sock (offline_frame e) acc) acc messages
  = set_sent acc
      (sent acc ++ map (fun e => (client_sock, offline_frame e)) messages).
Proof.
  induction messages as [|e messages IH]; intros acc; simpl.
  - by rewrite app_nil_r, set_sent_sent.
  - rewrite IH. simpl. by rewrite <- app_assoc.
Qed.

(** [deliver_offline_messages] sends the whole queue in order and drops it. *)
Lemma deliver_offline_messages_set nickname client_sock st :
  deliver_offline_messages nickname client_sock st
  = {| clients := clients st; clientmap := clientmap st;
       nickname_map := nickname_map st; inputs := inputs st;
       outputs := outputs st; rate_limiter := rate_limiter st;
       total_messages := total_messages st;
       private_messages := private_messages st;
       offline_messages := delete nickname (offline_messages st);
       sent := sent st ++ map (fun e => (client_sock, offline_frame e))
                              (default [] (offline_messages st !! nickname));
       closed := closed st |}.
Proof.
  unfold deliver_offline_messages.
  destruct (offline_messages st !! nickname) as [messages|] eqn:Hq; simpl.
  - by rewrite deliver_loop.
  - rewrite app_nil_r, delete_id by done. by destruct st.
Qed.

Lemma startswith_nonempty s p :
  p <> EmptyString -> Py.startswith s p = true -> String.eqb s "" = false.
Proof.
  intros Hp Hs. destruct s; [|done].
  destruct p; [done|discriminate].
Qed.

(** A well-formed handshake whose name is free of the marker joins. *)
Lemma on_handshake_joins client address cname name n draws st :
  Py.startswith cname "NAME: " = true ->
  Py.index (Py.split cname "NAME: ") 1 = Some name ->
  Py.startswith name "*" = false ->
  generate_unique_nickname (nickname_map st) name draws = Some n ->
  on_handshake client address cname draws st = Some (joined client address n st).
Proof.
  intros Hs Hname Hfree Hgen. unfold on_handshake.
  rewrite (startswith_nonempty cname "NAME: ") by done.
  rewrite Hs, Hname, Hfree, Hgen. simpl negb. simpl orb. cbv iota.
  f_equal.
  rewrite send_user_list_all_set, broadcast_set. simpl.
  rewrite deliver_offline_messages_set. simpl.
  unfold joined. f_equal.
  rewrite <- !app_assoc. simpl. done.
Qed.

Lemma handle_client_disconnect_departed sock st :
  handle_client_disconnect sock st = departed sock (get_client_name st sock) st.
Proof.
  unfold handle_client_disconnect.
  rewrite send_user_list_all_set, broadcast_set. simpl.
  unfold departed. f_equal. by rewrite <- app_assoc.
Qed.

(** ** Strings *)

Lemma prefix_nil s : String.prefix EmptyString s = true.
Proof. by destruct s. Qed.

Lemma prefix_cons a p b s :
  String.prefix (String a p) (String b s)
  = if ascii_dec a b then String.prefix p s else false.
Proof. done. Qed.

Lemma append_assoc (a b c : string) : (a +:+ b) +:+ c = a +:+ (b +:+ c).
Proof.
  induction a as [|x a IH]; [done|].
  change (String x ((a +:+ b) +:+ c) = String x (a +:+ (b +:+ c))).
  by rewrite IH.
Qed.

Lemma append_nil_r (a : string) : a +:+ EmptyString = a.
Proof.
  induction a as [|x a IH]; [done|].
  change (String x (a +:+ EmptyString) = String x a). by rewrite IH.
Qed.

Lemma prefix_append p s :
  String.prefix p s = true -> exists r, s = p +:+ r.
Proof.
  revert s; induction p as [|a p IH]; intros s Hp.
  - by exists s.
  - destruct s as [|b s]; [done|]. simpl in Hp.
    destruct (ascii_dec a b) as [->|]; [|done].
    destruct (IH s Hp) as [r ->]. by exists r.
Qed.

Lemma prefix_of_append p r : String.prefix p (p +:+ r) = true.
Proof.
  induction p as [|a p IH]; simpl; [apply prefix_nil|].
  destruct (ascii_dec a a); [done|congruence].
Qed.

Lemma split_go_cons sep c s skip cur :
  Py.split_go sep (String c s) skip cur =
    match skip with
    | S k => Py.split_go sep s k cur
    | O =>
        if String.prefix sep (String c s)
        then cur :: Py.split_go sep s (Nat.pred (String.length sep)) EmptyString
        else Py.split_go sep s O (cur +:+ String c EmptyString)
    end.
Proof. done. Qed.

(** The piece [split] is reading always ends up at the head of its result. *)
Lemma split_go_head sep s : forall skip cur,
  exists p rest, Py.split_go sep s skip cur = (cur +:+ p) :: rest.
Proof.
  induction s as [|c s IH]; intros skip cur.
  - exists EmptyString, []. by rewrite append_nil_r.
  - rewrite split_go_cons. destruct skip as [|k]; [|apply IH].
    destruct (String.prefix sep (String c s)).
    + exists EmptyString, (Py.split_go sep s (Nat.pred (String.length sep)) "").
      by rewrite append_nil_r.
    + destruct (IH O (cur +:+ String c EmptyString)) as (p & rest & ->).
      exists (String c p), rest. by rewrite append_assoc.
Qed.

(** After the handshake marker, index 1 of the split starts what follows. *)
Lemma split_after_marker t :
  Py.split ("NAME: " +:+ t) "NAME: " = EmptyString :: Py.split t "NAME: ".
Proof.
  unfold Py.split. simpl. by rewrite prefix_nil.
Qed.

Lemma handshake_name_exists cname :
  Py.startswith cname "NAME: " = true ->
  exists name, Py.index (Py.split cname "NAME: ") 1 = Some name /\
               exists t, cname = "NAME: " +:+ t /\ String.prefix name t = true.
Proof.
  intros Hs. destruct (prefix_append _ _ Hs) as [t ->].
  rewrite split_after_marker. unfold Py.split.
  destruct (split_go_head "NAME: " t O EmptyString) as (p & rest & Hsp).
  rewrite Hsp. exists p. split; [done|].
  exists t. split; [done|].
  clear Hs. revert p rest Hsp.
  assert (Hgen : forall s skip cur p rest,
             Py.split_go "NAME: " s skip cur = p :: rest ->
             skip = O ->
             exists q, p = cur +:+ q /\ String.prefix q s = true).
  { induction s as [|c s IH]; intros skip cur p rest Hsp ->.
    - simpl in Hsp. injection Hsp as <- <-. exists EmptyString.
      by rewrite append_nil_r.
    - rewrite split_go_cons in Hsp.
      destruct (String.prefix "NAME: " (String c s)).
      + injection Hsp as <- <-. exists EmptyString. by rewrite append_nil_r.
      + destruct (IH O _ p rest Hsp eq_refl) as (q & -> & Hq).
        exists (String c q). rewrite append_assoc. split; [done|].
        simpl. destruct (ascii_dec c c); [done|congruence]. }
  intros p rest Hsp. destruct (Hgen t O EmptyString p rest Hsp eq_refl) as (q & -> & Hq).
  done.
Qed.

(** The name a handshake asks for when it opens with the reserved marker. *)
Lemma handshake_name_reserved cname :
  Py.startswith cname "NAME: *" = true ->
  Py.startswith cname "NAME: " = true /\
  exists name, Py.index (Py.split cname "NAME: ") 1 = Some name /\
               Py.startswith name "*" = true.
Proof.
  intros Hs. destruct (prefix_append _ _ Hs) as [t ->].
  split; [unfold Py.startswith; simpl; by rewrite ?prefix_nil|].
  change ("NAME: *" +:+ t) with ("NAME: " +:+ String "*" t).
  rewrite split_after_marker. unfold Py.split.
  rewrite split_go_cons.
  change (String.prefix "NAME: " (String "*" t)) with false. cbv iota.
  destruct (split_go_head "NAME: " t O ("" +:+ "*")) as (p & rest & ->).
  exists (("" +:+ "*") +:+ p). split; [done|].
  unfold Py.startswith. simpl. by rewrite ?prefix_nil.
Qed.

Lemma suffix_not_reserved d : Py.startswith (suffix d) "*" = false.
Proof. destruct d as [[a b] c]. by destruct a. Qed.

Lemma append_not_reserved name s :
  Py.startswith name "*" = false ->
  Py.startswith s "*" = false ->
  Py.startswith (name +:+ s) "*" = false.
Proof.
  unfold Py.startswith. intros Hname Hs.
  destruct name as [|c name]; [exact Hs|].
  change (String c name +:+ s) with (String c (name +:+ s)).
  rewrite prefix_cons in *. destruct (ascii_dec "*" c); [|done].
  by rewrite prefix_nil in Hname.
Qed.

(** ** Collision renaming *)

Lemma generate_loop_result nm base draws n :
  generate_loop nm base draws = Some n ->
  Dict.mem n nm = false /\ exists d, In d draws /\ n = base +:+ suffix d.
Proof.
  induction draws as [|d draws IH]; simpl; [done|].
  destruct (Dict.mem (base +:+ suffix d) nm) eqn:Hheld; simpl.
  - intros Hrun. destruct (IH Hrun) as (Hfree & d' & Hin & ->).
    split; [done|]. exists d'. split; [by right|done].
  - intros [= <-]. split; [done|]. exists d. split; [by left|done].
Qed.

Lemma generate_loop_first nm base pre d post :
  (forall d', In d' pre -> Dict.mem (base +:+ suffix d') nm = true) ->
  Dict.mem (base +:+ suffix d) nm = false ->
  generate_loop nm base (pre ++ d :: post) = Some (base +:+ suffix d).
Proof.
  intros Hpre Hfree. induction pre as [|d' pre IH]; simpl.
  - by rewrite Hfree.
  - rewrite (Hpre d') by by left. simpl. apply IH.
    intros d'' Hin. apply Hpre. by right.
Qed.





Lemma generate_result nm base draws n :
  generate_unique_nickname nm base draws = Some n ->
  Dict.mem n nm = false /\
  (Dict.mem base nm = false -> n = base) /\
  (Dict.mem base nm = true -> exists d, In d draws /\ n = base +:+ suffix d).
Proof.
  unfold generate_unique_nickname.
  destruct (Dict.mem base nm) eqn:Hbase; simpl.
  - intros Hrun. destruct (generate_loop_result _ _ _ _ Hrun) as [Hfree Hd].
    by repeat split.
  - intros [= <-]. by repeat split.
Qed.

Lemma generate_free nm base draws :
  Dict.mem base nm = false -> generate_unique_nickname nm base draws = Some base.
Proof. unfold generate_unique_nickname. by intros ->. Qed.

Lemma generate_not_reserved nm base draws n :
  Py.startswith base "*" = false ->
  generate_unique_nickname nm base draws = Some n ->
  Py.startswith n "*" = false.
Proof.
  intros Hbase Hgen. destruct (generate_result _ _ _ _ Hgen) as (_ & Hsame & Hsuf).
  destruct (Dict.mem base nm).
  - destruct (Hsuf eq_refl) as (d & _ & ->).
    apply append_not_reserved; [done|apply suffix_not_reserved].
  - by rewrite (Hsame eq_refl).
Qed.

(** ** The handlers, case by case *)

Lemma on_handshake_cases client address cname draws st st' :
  on_handshake client address cname draws st = Some st' ->
  (clientmap st' = clientmap st /\ nickname_map st' = nickname_map st) \/
  (exists name n,
      Py.startswith cname "NAME: " = true /\
      Py.index (Py.split cname "NAME: ") 1 = Some name /\
      Py.startswith name "*" = false /\
      generate_unique_nickname (nickname_map st) name draws = Some n /\
      st' = joined client address n st).
Proof.
  intros Hrun.
  destruct (Py.startswith cname "NAME: ") eqn:Hs.
  - destruct (handshake_name_exists cname Hs) as (name & Hname & _).
    destruct (Py.startswith name "*") eqn:Hres.
    + left. unfold on_handshake in Hrun.
      rewrite (startswith_nonempty cname "NAME: "), Hs, Hname, Hres in Hrun by done.
      simpl in Hrun. by injection Hrun as <-.
    + destruct (generate_unique_nickname (nickname_map st) name draws) as [n|] eqn:Hgen.
      * right. exists name, n.
        rewrite (on_handshake_joins _ _ _ name n) in Hrun by done.
        injection Hrun as <-. done.
      * unfold on_handshake in Hrun.
        rewrite (startswith_nonempty cname "NAME: "), Hs, Hname, Hres, Hgen in Hrun
          by done.
        done.
  - left. unfold on_handshake in Hrun. rewrite Hs, orb_true_r in Hrun.
    by injection Hrun as <-.
Qed.

Lemma send_private_message_registry timestamp sender target message st :
  let st' := fst (send_private_message timestamp sender target message st) in
  clientmap st' = clientmap st /\ nickname_map st' = nickname_map st.
Proof.
  unfold send_private_message.
  by destruct (Dict.get target (nickname_map st)).
Qed.

Lemma on_data_cases sock data now timestamp st :
  let st' := on_data sock data now timestamp st in
  (data <> EmptyString /\
   clientmap st' = clientmap st /\ nickname_map st' = nickname_map st) \/
  (data = EmptyString /\ st' = handle_client_disconnect sock st).
Proof.
  unfold on_data.
  destruct (String.eqb_spec data "") as [->|Hne]; simpl; [by right|].
  left. split; [done|].
  destruct (check_rate (rate_limiter st) now (get_client_name st sock)) as [rl ok].
  destruct ok; simpl; [|done].
  destruct (Py.startswith data "/pm "); [|by rewrite broadcast_set].
  destruct (Py.split_max data " " 2) as [|? [|target [|message ?]]]; try done.
  match goal with
  | |- context [send_private_message ?ts ?s ?t ?m ?st0] =>
      apply (send_private_message_registry ts s t m st0)
  end.
Qed.

(** ** From the wire to the handlers *)

Section Decoded.
Context `{Pickle}.

(** A handshake frame that arrives with its header in one read is handled
    as the string it carries. *)
Lemma handle_new_connection_decoded pf fuel client address cname ch draws st :
  Z.of_nat (length (dumps cname)) < 2 ^ 32 ->
  chunked ch ->
  concat ch = frame_bytes pf cname ->
  (sizeof_long pf <= length (hd [] ch))%nat ->
  (length (dumps cname) <= fuel)%nat ->
  handle_new_connection pf fuel client address ch draws st
  = on_handshake client address cname draws st.
Proof.
  intros Hlen Hch Hcat Hfirst Hfuel. unfold handle_new_connection.
  by rewrite (receive_send_whole_header pf fuel ch cname).
Qed.

Lemma handle_client_message_decoded pf fuel sock data ch now timestamp st :
  Z.of_nat (length (dumps data)) < 2 ^ 32 ->
  chunked ch ->
  concat ch = frame_bytes pf data ->
  (sizeof_long pf <= length (hd [] ch))%nat ->
  (length (dumps data) <= fuel)%nat ->
  handle_client_message pf fuel sock ch now timestamp st
  = Some (on_data sock data now timestamp st).
Proof.
  intros Hlen Hch Hcat Hfirst Hfuel. unfold handle_client_message.
  by rewrite (receive_send_whole_header pf fuel ch data).
Qed.

(** A peer that closes before any handshake is dropped without a session. *)
Lemma handle_new_connection_closed pf fuel client address draws st :
  handle_new_connection pf fuel client address [] draws st
  = Some (close_sock client st).
Proof. done. Qed.

End Decoded.

(** ** The identity registry *)

Lemma registry_ok_unique st : registry_ok st -> unique_nicknames st.
Proof.
  intros (_ & Hcm & _) s1 a1 s2 a2 n H1 H2.
  apply Hcm in H1. apply Hcm in H2. congruence.
Qed.

Lemma registry_ok_joined client address n st :
  registry_ok st ->
  clientmap st !! client = None ->
  Dict.get n (nickname_map st) = None ->
  registry_ok (joined client address n st).
Proof.
  intros (Hnd & Hcm & Hnm) Hfresh Hfree. unfold registry_ok, joined. simpl.
  split; [by apply dict_NoDup_set_new|]. split.
  - intros sock a n' Hlk.
    destruct (decide (client = sock)) as [->|Hne].
    + rewrite lookup_insert_eq in Hlk. injection Hlk as <- <-.
      apply dict_get_set_eq.
    + rewrite lookup_insert_ne in Hlk by done.
      specialize (Hcm _ _ _ Hlk).
      rewrite dict_get_set_ne; [done|]. intros ->. congruence.
  - intros n' sock Hget.
    destruct (decide (n = n')) as [->|Hne].
    + rewrite dict_get_set_eq in Hget. injection Hget as <-.
      exists address. by rewrite lookup_insert_eq.
    + rewrite dict_get_set_ne in Hget by done.
      destruct (Hnm _ _ Hget) as [a Ha]. exists a.
      rewrite lookup_insert_ne; [done|]. intros ->. congruence.
Qed.

Lemma registry_ok_departed sock address n st :
  registry_ok st ->
  clientmap st !! sock = Some (address, n) ->
  registry_ok (departed sock n st).
Proof.
  intros (Hnd & Hcm & Hnm) Hsock. unfold registry_ok, departed. simpl.
  split; [by apply dict_NoDup_del|]. split.
  - intros s a n' Hlk.
    destruct (decide (sock = s)) as [->|Hne]; [by rewrite lookup_delete_eq in Hlk|].
    rewrite lookup_delete_ne in Hlk by done.
    rewrite dict_get_del_ne; [by apply (Hcm _ a)|].
    intros ->. apply Hcm in Hlk. apply Hcm in Hsock. congruence.
  - intros n' s Hget.
    destruct (decide (n = n')) as [->|Hne];
      [by rewrite dict_get_del_eq in Hget|].
    rewrite dict_get_del_ne in Hget by done.
    destruct (Hnm _ _ Hget) as [a Ha]. exists a.
    rewrite lookup_delete_ne; [done|]. intros ->. congruence.
Qed.

Lemma get_client_name_session st sock address n :
  clientmap st !! sock = Some (address, n) -> get_client_name st sock = n.
Proof. unfold get_client_name. by intros ->. Qed.

(** The teardown is written for session sockets.  On a socket that has no
    session (one torn down already), [get_client_name] answers ["Unknown"]
    and it is that binding and that rate window which are dropped. *)
Lemma handle_client_disconnect_no_session sock st :
  clientmap st !! sock = None ->
  handle_client_disconnect sock st = departed sock "Unknown" st.
Proof.
  intros Hnone. rewrite handle_client_disconnect_departed.
  unfold get_client_name. by rewrite Hnone.
Qed.

Lemma registry_ok_same st st' :
  clientmap st' = clientmap st -> nickname_map st' = nickname_map st ->
  registry_ok st -> registry_ok st'.
Proof. unfold registry_ok. by intros -> ->. Qed.

Lemma no_reserved_same st st' :
  nickname_map st' = nickname_map st -> no_reserved st -> no_reserved st'.
Proof. unfold no_reserved. by intros ->. Qed.

(** Every handler keeps the nickname table and the sessions in bijection as
    long as it is run on a socket that has a session. *)
Lemma handle_preserves st ev st' :
  enabled st ev -> on_session st ev -> handle st ev = Some st' ->
  registry_ok st /\ no_reserved st -> registry_ok st' /\ no_reserved st'.
Proof.
  intros Hen Hsess Hrun [Hok Hres].
  assert (Hleave : forall sock, is_Some (clientmap st !! sock) ->
            registry_ok (handle_client_disconnect sock st) /\
            no_reserved (handle_client_disconnect sock st)).
  { intros sock [[a n] Hsock].
    rewrite handle_client_disconnect_departed,
      (get_client_name_session _ _ _ _ Hsock).
    split; [by apply (registry_ok_departed _ a)|].
    intros n' s Hget. unfold departed in Hget. simpl in Hget.
    destruct (decide (n = n')) as [->|Hne].
    - destruct Hok as (Hnd & _). by rewrite dict_get_del_eq in Hget.
    - rewrite dict_get_del_ne in Hget by done. by apply (Hres _ s). }
  destruct ev as [client address cname draws|sock data now timestamp|sock];
    simpl in Hen, Hsess, Hrun.
  - destruct (on_handshake_cases _ _ _ _ _ _ Hrun)
      as [[Hcm Hnm]|(name & n & _ & _ & Hfree & Hgen & ->)].
    + split; [by apply (registry_ok_same st)|by apply (no_reserved_same st)].
    + destruct (generate_result _ _ _ _ Hgen) as (Hunheld & _).
      apply dict_mem_false in Hunheld.
      split; [by apply registry_ok_joined|].
      intros n' s Hget. unfold joined in Hget. simpl in Hget.
      destruct (decide (n = n')) as [<-|Hne].
      * by apply (generate_not_reserved _ _ _ _ Hfree Hgen).
      * rewrite dict_get_set_ne in Hget by done. by apply (Hres _ s).
  - injection Hrun as <-.
    destruct (on_data_cases sock data now timestamp st) as [(_ & Hcm & Hnm)|[_ ->]].
    + split; [by apply (registry_ok_same st)|by apply (no_reserved_same st)].
    + by apply Hleave.
  - injection Hrun as <-. by apply Hleave.
Qed.

Lemma registry_sound_no_reserved st : registry_sound st -> no_reserved st.
Proof.
  intros (_ & Hnm & Hfree) n sock Hget.
  destruct (Hnm _ _ Hget) as [a Ha]. by apply (Hfree sock a).
Qed.

Lemma registry_sound_same st st' :
  clientmap st' = clientmap st -> nickname_map st' = nickname_map st ->
  registry_sound st -> registry_sound st'.
Proof. unfold registry_sound. by intros -> ->. Qed.

Lemma registry_sound_joined client address n st :
  registry_sound st ->
  clientmap st !! client = None ->
  Dict.get n (nickname_map st) = None ->
  Py.startswith n "*" = false ->
  registry_sound (joined client address n st).
Proof.
  intros (Hnd & Hnm & Hfree) Hfresh Hunheld Hn. unfold registry_sound, joined.
  simpl. split; [by apply dict_NoDup_set_new|]. split.
  - intros n' sock Hget.
    destruct (decide (n = n')) as [->|Hne].
    + rewrite dict_get_set_eq in Hget. injection Hget as <-.
      exists address. by rewrite lookup_insert_eq.
    + rewrite dict_get_set_ne in Hget by done.
      destruct (Hnm _ _ Hget) as [a Ha]. exists a.
      rewrite lookup_insert_ne; [done|]. intros ->. congruence.
  - intros sock a n' Hlk.
    destruct (decide (client = sock)) as [->|Hne].
    + rewrite lookup_insert_eq in Hlk. by injection Hlk as <- <-.
    + rewrite lookup_insert_ne in Hlk by done. by apply (Hfree sock a).
Qed.

(** The teardown of any socket, with or without a session. *)
Lemma registry_sound_left sock st :
  registry_sound st -> registry_sound (handle_client_disconnect sock st).
Proof.
  intros (Hnd & Hnm & Hfree). rewrite handle_client_disconnect_departed.
  unfold registry_sound, departed. simpl.
  split; [by apply dict_NoDup_del|]. split.
  - intros n' s Hget.
    destruct (decide (get_client_name st sock = n')) as [Heq|Hne].
    { rewrite Heq, dict_get_del_eq in Hget by done. done. }
    rewrite dict_get_del_ne in Hget by done.
    destruct (Hnm _ _ Hget) as [a Ha]. exists a.
    rewrite lookup_delete_ne; [done|]. intros ->.
    apply Hne. by apply (get_client_name_session _ _ a).
  - intros s a n' Hlk.
    destruct (decide (sock = s)) as [->|Hne]; [by rewrite lookup_delete_eq in Hlk|].
    rewrite lookup_delete_ne in Hlk by done. by apply (Hfree s a).
Qed.

Lemma handle_sound st ev st' :
  enabled st ev -> handle st ev = Some st' ->
  registry_sound st -> registry_sound st'.
Proof.
  intros Hen Hrun Hok.
  destruct ev as [client address cname draws|sock data now timestamp|sock];
    simpl in Hen, Hrun.
  - destruct (on_handshake_cases _ _ _ _ _ _ Hrun)
      as [[Hcm Hnm]|(name & n & _ & _ & Hfree & Hgen & ->)].
    + by apply (registry_sound_same st).
    + destruct (generate_result _ _ _ _ Hgen) as (Hunheld & _).
      apply dict_mem_false in Hunheld.
      apply registry_sound_joined; [done..|].
      by apply (generate_not_reserved _ _ _ _ Hfree Hgen).
  - injection Hrun as <-.
    destruct (on_data_cases sock data now timestamp st) as [(_ & Hcm & Hnm)|[_ ->]].
    + by apply (registry_sound_same st).
    + by apply registry_sound_left.
  - injection Hrun as <-. by apply registry_sound_left.
Qed.

Lemma reachable_invariant st :
  reachable st -> registry_sound st /\ no_reserved st.
Proof.
  intros Hreach.
  assert (Hok : registry_sound st).
  { induction Hreach as [|st ev st' _ IH Hen Hrun].
    - unfold registry_sound. simpl. split; [constructor|]. split.
      + done.
      + intros sock a n Hlk. by rewrite lookup_empty in Hlk.
    - by apply (handle_sound st ev). }
  split; [done|by apply registry_sound_no_reserved].
Qed.

(** C1: the broker reaches a state in which two active sessions carry the
    same nickname.  Sessions 1 and 2 join as [Unknown] and [bob]; socket 2
    sends an empty frame and is also in [select]'s exceptional list of that
    turn, so [handle_client_message] tears it down and [handle_client_error]
    tears it down again.  The second teardown finds no session for the
    socket, [get_client_name] answers ["Unknown"], and the binding of
    session 1 is deleted from [nickname_map]; the next handshake asking for
    [Unknown] finds the name unmapped and is admitted under it while
    session 1 is still active. *)
Theorem nicknames_clash_after_double_teardown :
  let a1 : Address := ("10.0.0.1", 5001) in
  let a2 : Address := ("10.0.0.2", 5002) in
  let a3 : Address := ("10.0.0.3", 5003) in
  let joins := [Accept 1%nat a1 "NAME: Unknown" []; Accept 2%nat a2 "NAME: bob" []] in
  let teardowns := [Readable 2%nat "" 30 "10:00:00"; Exceptional 2%nat] in
  let claim := [Accept 3%nat a3 "NAME: Unknown" []] in
  exists st2 st3 st4 st5,
    run ChatServer_init joins = Some st2 /\
    run st2 (take 1 teardowns) = Some st3 /\
    run st2 teardowns = Some st4 /\
    run st4 claim = Some st5 /\
    reachable st5 /\
    nickname_map st2 = [("Unknown", 1%nat); ("bob", 2%nat)] /\
    nickname_map st3 = [("Unknown", 1%nat)] /\
    clientmap st3 !! 2%nat = None /\
    get_client_name st3 2%nat = "Unknown" /\
    nickname_map st4 = [] /\
    clientmap st4 !! 1%nat = Some (a1, "Unknown") /\
    generate_unique_nickname (nickname_map st4) "Unknown" [] = Some "Unknown" /\
    clientmap st5 !! 1%nat = Some (a1, "Unknown") /\
    clientmap st5 !! 3%nat = Some (a3, "Unknown") /\
    ~ unique_nicknames st5.
Proof.
  intros a1 a2 a3 joins teardowns claim.
  set (st1 := joined 1%nat a1 "Unknown" ChatServer_init).
  set (st2 := joined 2%nat a2 "bob" st1).
  set (st3 := handle_client_disconnect 2%nat st2).
  set (st4 := handle_client_disconnect 2%nat st3).
  set (st5 := joined 3%nat a3 "Unknown" st4).
  exists st2, st3, st4, st5.
  assert (H1 : handle ChatServer_init (Accept 1%nat a1 "NAME: Unknown" []) = Some st1)
    by reflexivity.
  assert (H2 : handle st1 (Accept 2%nat a2 "NAME: bob" []) = Some st2)
    by reflexivity.
  assert (H3 : handle st2 (Readable 2%nat "" 30 "10:00:00") = Some st3)
    by reflexivity.
  assert (H4 : handle st3 (Exceptional 2%nat) = Some st4) by reflexivity.
  assert (H5 : handle st4 (Accept 3%nat a3 "NAME: Unknown" []) = Some st5)
    by (vm_compute; reflexivity).
  assert (Hone : clientmap st5 !! 1%nat = Some (a1, "Unknown"))
    by (vm_compute; reflexivity).
  assert (Hthree : clientmap st5 !! 3%nat = Some (a3, "Unknown"))
    by (vm_compute; reflexivity).
  split; [unfold joins; cbn [run]; by rewrite H1, H2|].
  split; [unfold teardowns; cbn [take run]; by rewrite H3|].
  split; [unfold teardowns; cbn [run]; by rewrite H3, H4|].
  split; [unfold claim; cbn [run]; by rewrite H5|].
  split.
  { apply (reachable_step st4 (Accept 3%nat a3 "NAME: Unknown" [])); [|reflexivity|exact H5].
    apply (reachable_step st3 (Exceptional 2%nat)); [|right; vm_compute; tauto|exact H4].
    apply (reachable_step st2 (Readable 2%nat "" 30 "10:00:00"));
      [|vm_compute; eauto|exact H3].
    apply (reachable_step st1 (Accept 2%nat a2 "NAME: bob" []));
      [|reflexivity|exact H2].
    apply (reachable_step ChatServer_init (Accept 1%nat a1 "NAME: Unknown" []));
      [apply reachable_init|reflexivity|exact H1]. }
  split; [reflexivity|]. split; [reflexivity|]. split; [reflexivity|].
  split; [reflexivity|]. split; [reflexivity|].
  split; [vm_compute; reflexivity|]. split; [reflexivity|].
  split; [exact Hone|]. split; [exact Hthree|].
  intros Huniq. specialize (Huniq _ _ _ _ _ Hone Hthree). discriminate.
Qed.

(** ** Reserved names *)

(** C6: a handshake whose requested nickname begins with [*] is answered
    with an [ERROR: <reason>] frame and the connection is closed; no session
    and no registry entry is created.  Hence no session of a reachable state
    has a nickname beginning with [*]. *)
Theorem reserved_names_rejected (st : ChatServer) :
  reachable st ->
  (forall client address cname draws,
      Py.startswith cname "NAME: *" = true ->
      let st' := close_sock client
                   (send_to client ("ERROR: " +:+ reserved_error) st) in
      on_handshake client address cname draws st = Some st' /\
      clientmap st' = clientmap st /\
      nickname_map st' = nickname_map st /\
      clients st' = clients st /\
      inputs st' = inputs st /\
      outputs st' = outputs st /\
      sent st' = sent st ++ [(client, "ERROR: " +:+ reserved_error)] /\
      closed st' = closed st ++ [client]) /\
  (forall sock address n,
      clientmap st !! sock = Some (address, n) -> Py.startswith n "*" = false) /\
  (forall n sock,
      Dict.get n (nickname_map st) = Some sock -> Py.startswith n "*" = false).
Proof.
  intros Hreach. destruct (reachable_invariant st Hreach) as [Hok Hres].
  split.
  { intros client address cname draws Hs st'.
    destruct (handshake_name_reserved cname Hs) as (Hmark & name & Hname & Hstar).
    split; [|done].
    unfold on_handshake.
    rewrite (startswith_nonempty cname "NAME: "), Hmark, Hname, Hstar by done.
    done. }
  split; [|exact Hres].
  intros sock address n Hsock. destruct Hok as (_ & _ & Hfree).
  by apply (Hfree sock address).
Qed.

Lemma reserved_names_rejected_witness :
  let st := joined 1%nat ("10.0.0.1", 5000) "bob" ChatServer_init in
  reachable st /\
  on_handshake 2%nat ("10.0.0.2", 5001) "NAME: *eve" [] st
    = Some (close_sock 2%nat
              (send_to 2%nat ("ERROR: " +:+ reserved_error) st)).
Proof.
  intros st.
  assert (Hreach : reachable st).
  { apply (reachable_step ChatServer_init
             (Accept 1%nat ("10.0.0.1", 5000) "NAME: bob" [])).
    - apply reachable_init.
    - reflexivity.
    - reflexivity. }
  split; [exact Hreach|].
  destruct (reserved_names_rejected st Hreach) as (Hrej & _).
  apply (Hrej 2%nat ("10.0.0.2", 5001) "NAME: *eve" []). reflexivity.
Defined.

(** ** Termination of the collision loop *)












(** ** The offline mailbox *)

Lemma dict_del_set_new {V} (k : string) (v : V) (d : list (string * V)) :
  Dict.get k d = None -> Dict.del k (Dict.set k v d) = d.
Proof.
  induction d as [|[k' v'] d IH]; simpl.
  - by rewrite String.eqb_refl.
  - destruct (String.eqb_spec k k') as [->|Hne]; [done|]. simpl.
    destruct (String.eqb_spec k k'); [done|]. intros Hg. by rewrite IH.
Qed.

(** A private message to an absent nickname is appended to its queue. *)
Lemma send_private_message_offline timestamp sender target message st :
  Dict.get target (nickname_map st) = None ->
  let st' := fst (send_private_message timestamp sender target message st) in
  clientmap st' = clientmap st /\
  nickname_map st' = nickname_map st /\
  clients st' = clients st /\
  outputs st' = outputs st /\
  sent st' = sent st ++ [(sender, queued_notice target)] /\
  offline_messages st'
    = <[target := default [] (offline_messages st !! target)
                  ++ [(get_client_name st sender, message, timestamp)]]>
        (offline_messages st).
Proof.
  intros Hoff. unfold send_private_message. rewrite Hoff. simpl. done.
Qed.

Lemma enqueue_all_cons target sender message timestamp sends st :
  enqueue_all target ((sender, message, timestamp) :: sends) st
  = enqueue_all target sends
      (fst (send_private_message timestamp sender target message st)).
Proof. done. Qed.

Lemma entries_of_same st st' sends :
  clientmap st' = clientmap st -> entries_of st' sends = entries_of st sends.
Proof.
  intros Hcm. unfold entries_of. apply map_ext. intros [[s m] t].
  unfold get_client_name. by rewrite Hcm.
Qed.

Lemma enqueue_all_queue target sends : forall st,
  Dict.get target (nickname_map st) = None ->
  clientmap (enqueue_all target sends st) = clientmap st /\
  nickname_map (enqueue_all target sends st) = nickname_map st /\
  clients (enqueue_all target sends st) = clients st /\
  outputs (enqueue_all target sends st) = outputs st /\
  default [] (offline_messages (enqueue_all target sends st) !! target)
    = default [] (offline_messages st !! target) ++ entries_of st sends /\
  (forall other, other <> target ->
     offline_messages (enqueue_all target sends st) !! other
     = offline_messages st !! other).
Proof.
  induction sends as [|[[sender message] timestamp] sends IH]; intros st Hoff.
  - unfold enqueue_all. simpl. by rewrite app_nil_r.
  - rewrite enqueue_all_cons.
    destruct (send_private_message_offline timestamp sender target message st Hoff)
      as (Hcm & Hnm & Hcl & Hout & _ & Hq).
    set (st1 := fst (send_private_message timestamp sender target message st)) in *.
    assert (Hoff1 : Dict.get target (nickname_map st1) = None) by by rewrite Hnm.
    destruct (IH st1 Hoff1) as (Hcm' & Hnm' & Hcl' & Hout' & Hq' & Hother).
    rewrite Hcm', Hnm', Hcl', Hout', Hq', Hq, lookup_insert_eq.
    rewrite (entries_of_same st st1) by done.
    repeat split; try done.
    + simpl. rewrite <- app_assoc. done.
    + intros other Hne. rewrite Hother by done. by rewrite Hq, lookup_insert_ne.
Qed.

(** C2: the entries queued for a nickname while it is absent are all sent
    to the next connection that joins under it, each in the frame built
    from its stored timestamp and sender, in the order they were queued,
    between the user list and the join notice; the queue is gone afterwards,
    so a further delivery, or a second join of the nickname after the
    session left, sends no queued entry. *)
Theorem offline_mailbox_fifo (st : ChatServer) (target : string)
  (sends : list (Sock * string * string)) (client : Sock) (address : Address)
  (cname : string) (draws : list Draw) :
  Dict.get target (nickname_map st) = None ->
  Py.startswith cname "NAME: " = true ->
  Py.index (Py.split cname "NAME: ") 1 = Some target ->
  Py.startswith target "*" = false ->
  let st1 := enqueue_all target sends st in
  let queue := default [] (offline_messages st !! target) ++ entries_of st sends in
  exists st2,
    on_handshake client address cname draws st1 = Some st2 /\
    clientmap st2 !! client = Some (address, target) /\
    sent st2
      = sent st1
        ++ [(client, "CLIENT: " +:+ target);
            (client, user_list_frame (nickname_map st2))]
        ++ map (fun e => (client, offline_frame e)) queue
        ++ notices (target +:+ " joined (Total Clients: "
                      +:+ pretty (clients st2) +:+ ")")
                   (Some client) (outputs st2)
        ++ map (fun o => (o, user_list_frame (nickname_map st2))) (outputs st2) /\
    (forall sender msg timestamp,
        offline_frame (sender, msg, timestamp)
        = "[" +:+ timestamp +:+ "] OFFLINE MESSAGE from " +:+ sender
          +:+ ": " +:+ msg) /\
    offline_messages st2 !! target = None /\
    (forall sock, deliver_offline_messages target sock st2 = st2) /\
    (forall client' address' draws',
        let st3 := handle_client_disconnect client st2 in
        exists st4,
          on_handshake client' address' cname draws' st3 = Some st4 /\
          clientmap st4 !! client' = Some (address', target) /\
          sent st4
            = sent st3
              ++ [(client', "CLIENT: " +:+ target);
                  (client', user_list_frame (nickname_map st4))]
              ++ notices (target +:+ " joined (Total Clients: "
                            +:+ pretty (clients st4) +:+ ")")
                         (Some client') (outputs st4)
              ++ map (fun o => (o, user_list_frame (nickname_map st4)))
                     (outputs st4)).
Proof.
  intros Hoff Hmark Hname Hfree st1 queue.
  destruct (enqueue_all_queue target sends st Hoff)
    as (Hcm & Hnm & Hcl & Hout & Hq & _).
  fold st1 in Hcm, Hnm, Hcl, Hout, Hq. fold queue in Hq.
  assert (Hoff1 : Dict.mem target (nickname_map st1) = false).
  { apply dict_mem_false. by rewrite Hnm. }
  exists (joined client address target st1).
  split.
  { apply (on_handshake_joins _ _ _ target); try done. by apply generate_free. }
  split; [unfold joined; simpl; by rewrite lookup_insert_eq|].
  split; [unfold joined; simpl; by rewrite Hq|].
  split; [done|].
  assert (Hgone : offline_messages (joined client address target st1) !! target = None).
  { unfold joined. simpl. by rewrite lookup_delete_eq. }
  split; [done|]. split.
  { intros sock. unfold deliver_offline_messages. by rewrite Hgone. }
  intros client' address' draws' st3.
  assert (Hst3 : st3 = departed client target (joined client address target st1)).
  { unfold st3. rewrite handle_client_disconnect_departed. f_equal.
    unfold get_client_name, joined. simpl. by rewrite lookup_insert_eq. }
  assert (Hnm3 : nickname_map st3 = nickname_map st1).
  { rewrite Hst3. unfold departed, joined. simpl.
    apply dict_del_set_new. by apply dict_mem_false. }
  assert (Hq3 : offline_messages st3 !! target = None).
  { rewrite Hst3. unfold departed. simpl. exact Hgone. }
  exists (joined client' address' target st3).
  split.
  { apply (on_handshake_joins _ _ _ target); try done.
    apply generate_free. by rewrite Hnm3. }
  split; [unfold joined; simpl; by rewrite lookup_insert_eq|].
  unfold joined at 1. simpl. by rewrite Hq3.
Qed.

Lemma offline_mailbox_fifo_witness :
  let st := joined 1%nat ("10.0.0.1", 5000) "bob" ChatServer_init in
  let sends := [(1%nat, "hi", "10:00:00"); (1%nat, "are you there", "10:00:05")] in
  exists st2,
    on_handshake 2%nat ("10.0.0.2", 5001) "NAME: carol" []
      (enqueue_all "carol" sends st) = Some st2 /\
    List.filter (fun f => Nat.eqb (fst f) 2) (sent st2)
      = [(2%nat, "CLIENT: carol"); (2%nat, "USERLIST:bob,carol");
         (2%nat, "[10:00:00] OFFLINE MESSAGE from bob: hi");
         (2%nat, "[10:00:05] OFFLINE MESSAGE from bob: are you there");
         (2%nat, "USERLIST:bob,carol")] /\
    offline_messages st2 !! "carol" = None.
Proof.
  intros st sends.
  destruct (offline_mailbox_fifo st "carol" sends 2%nat ("10.0.0.2", 5001)
              "NAME: carol" [])
    as (st2 & Hrun & _ & _ & _ & Hgone & _).
  - reflexivity.
  - reflexivity.
  - reflexivity.
  - reflexivity.
  - exists st2. split; [exact Hrun|]. split; [|exact Hgone].
    assert (Hst2 : Some st2
              = Some (joined 2%nat ("10.0.0.2", 5001) "carol"
                        (enqueue_all "carol" sends st))).
    { rewrite <- Hrun. reflexivity. }
    injection Hst2 as ->. vm_compute. reflexivity.
Defined.

(** ** An empty payload *)

Section EmptyFrame.
Context `{Pickle}.

(** C9: a frame whose payload is the empty string, sent by an active
    session, has the effect of the peer closing: [receive_message] returns
    [''] in both cases and the dispatcher tears the session down (the
    nickname is released, the leave notice is broadcast and the member
    list is sent to the remaining sessions); nothing else is sent and the
    message counter does not move. *)
Theorem empty_payload_is_disconnect (pf : Platform) (fuel : nat) (sock : Sock)
  (address : Address) (n : string) (ch : list (list Z)) (now : Z)
  (timestamp : string) (st : ChatServer) :
  reachable st ->
  clientmap st !! sock = Some (address, n) ->
  Z.of_nat (length (dumps EmptyString)) < 2 ^ 32 ->
  chunked ch ->
  concat ch = frame_bytes pf EmptyString ->
  (sizeof_long pf <= length (hd [] ch))%nat ->
  (length (dumps EmptyString) <= fuel)%nat ->
  let st' := handle_client_disconnect sock st in
  receive_message pf fuel ch = Some (EmptyString, []) /\
  receive_message pf fuel [] = Some (EmptyString, []) /\
  handle_client_message pf fuel sock ch now timestamp st = Some st' /\
  handle_client_message pf fuel sock [] now timestamp st = Some st' /\
  clientmap st' !! sock = None /\
  Dict.get n (nickname_map st') = None /\
  window (rate_limiter st') n = [] /\
  outputs st' = list_remove sock (outputs st) /\
  sent st'
    = sent st
      ++ notices (n +:+ " left (Total Clients: " +:+ pretty (clients st') +:+ ")")
                 None (outputs st')
      ++ map (fun o => (o, user_list_frame (nickname_map st'))) (outputs st') /\
  total_messages st' = total_messages st /\
  private_messages st' = private_messages st.
Proof.
  intros Hreach Hsock Hlen Hch Hcat Hfirst Hfuel st'.
  assert (Hrecv : receive_message pf fuel ch = Some (EmptyString, []))
    by by apply receive_send_whole_header.
  split; [done|]. split; [done|].
  unfold handle_client_message. rewrite Hrecv. simpl.
  split; [done|]. split; [done|].
  unfold st'. rewrite handle_client_disconnect_departed,
    (get_client_name_session _ _ _ _ Hsock).
  unfold departed. simpl.
  destruct (reachable_invariant st Hreach) as [(Hnd & _) _].
  rewrite lookup_delete_eq, dict_get_del_eq by done.
  rewrite remove_client_window. destruct (decide (n = n)); done.
Qed.

End EmptyFrame.

Lemma empty_payload_is_disconnect_witness :
  let st := joined 1%nat ("10.0.0.1", 5000) "bob" ChatServer_init in
  handle_client_message linux_x86_64 2 1%nat
    [[0; 0; 0; 2; 0; 0; 0; 0]; [128]; [46]] 30 "10:00:00" st
  = Some (handle_client_disconnect 1%nat st).
Proof.
  intros st.
  assert (Hreach : reachable st).
  { apply (reachable_step ChatServer_init
             (Accept 1%nat ("10.0.0.1", 5000) "NAME: bob" [])).
    - apply reachable_init.
    - reflexivity.
    - reflexivity. }
  destruct (empty_payload_is_disconnect linux_x86_64 2 1%nat ("10.0.0.1", 5000)
              "bob" [[0; 0; 0; 2; 0; 0; 0; 0]; [128]; [46]] 30 "10:00:00" st)
    as (_ & _ & Hmsg & _).
  - exact Hreach.
  - reflexivity.
  - vm_compute. reflexivity.
  - repeat constructor; discriminate.
  - reflexivity.
  - vm_compute. lia.
  - vm_compute. lia.
  - exact Hmsg.
Defined.

(** ** The relay *)

Lemma rewrite_nickname_other data :
  Py.startswith data "NAME: " = false -> rewrite_nickname data = Some data.
Proof. unfold rewrite_nickname. by intros ->. Qed.

Lemma rewrite_nickname_marked data :
  Py.startswith data "NAME: *" = true -> rewrite_nickname data = Some data.
Proof.
  intros Hs. destruct (handshake_name_reserved data Hs) as (Hmark & name & Hname & Hstar).
  unfold rewrite_nickname. by rewrite Hmark, Hname, Hstar.
Qed.

(** A name that does not contain the handshake marker is kept whole. *)
Lemma rewrite_nickname_plain name :
  Py.split name "NAME: " = [name] ->
  Py.startswith name "*" = false ->
  rewrite_nickname ("NAME: " +:+ name) = Some ("NAME: *" +:+ name).
Proof.
  intros Hplain Hfree. unfold rewrite_nickname.
  replace (Py.startswith ("NAME: " +:+ name) "NAME: ") with true
    by (symmetry; apply prefix_of_append).
  rewrite split_after_marker, Hplain. simpl. by rewrite Hfree.
Qed.

(** Whatever it returns, the rewritten handshake carries a prefix of what
    followed the marker. *)
Lemma rewrite_nickname_prefix data :
  Py.startswith data "NAME: " = true ->
  exists t name,
    data = "NAME: " +:+ t /\ String.prefix name t = true /\
    rewrite_nickname data
      = Some (if Py.startswith name "*" then data else "NAME: *" +:+ name).
Proof.
  intros Hs. destruct (handshake_name_exists data Hs) as (name & Hname & t & -> & Hpre).
  exists t, name. split; [done|]. split; [done|].
  unfold rewrite_nickname. rewrite Hs, Hname.
  by destruct (Py.startswith name "*").
Qed.

(** Once the first client frame has gone through, and always in the
    upstream-to-client direction, frames are forwarded unmodified. *)
Lemma forward_loop_unmodified is_c2s first incoming : forall accepts dest total,
  is_c2s && first = false ->
  forward_loop is_c2s first incoming accepts dest total
  = (dest ++ relayed incoming accepts,
     total + Z.of_nat (length (relayed incoming accepts))).
Proof.
  induction incoming as [|data rest IH]; intros accepts dest total Hoff; simpl.
  - by rewrite app_nil_r, Z.add_0_r.
  - destruct (String.eqb data ""); [by rewrite app_nil_r, Z.add_0_r|].
    rewrite Hoff.
    destruct accepts as [|accepts]; [by rewrite app_nil_r, Z.add_0_r|].
    rewrite IH by done. simpl length.
    rewrite <- app_assoc. simpl. f_equal. lia.
Qed.

(** The first client frame is the only one [forward_data] may rewrite. *)
Lemma forward_data_first data rest accepts :
  data <> EmptyString ->
  fst (forward_data true (data :: rest) (S accepts))
  = match (if Py.startswith data "NAME: " then rewrite_nickname data
           else Some data) with
    | Some data' => data' :: relayed rest accepts
    | None => []
    end.
Proof.
  intros Hne. unfold forward_data. simpl.
  destruct (String.eqb_spec data ""); [done|].
  destruct (if Py.startswith data "NAME: " then rewrite_nickname data
            else Some data) as [data'|]; [|done].
  by rewrite forward_loop_unmodified.
Qed.

Lemma forward_data_upstream incoming accepts :
  fst (forward_data false incoming accepts) = relayed incoming accepts.
Proof. unfold forward_data. by rewrite forward_loop_unmodified. Qed.

(** C5 at a first client frame whose name contains the marker again: the
    relay forwards [NAME: *a] and drops the rest of the frame, instead of
    [NAME: *] followed by everything after the first marker. *)
Theorem relay_truncates_name_at_marker :
  rewrite_nickname "NAME: aNAME: b" = Some "NAME: *a" /\
  forward_data true ["NAME: aNAME: b"; "hello"] 2 = (["NAME: *a"; "hello"], 2) /\
  "NAME: *a" <> "NAME: *" +:+ "aNAME: b".
Proof. split; [reflexivity|]. split; [reflexivity|discriminate]. Qed.

(** * Further properties of the code *)

(** ** Frame transport: outcomes of [send_message] and [receive_message] *)

Lemma frame_header_overflow pf buffer :
  2 ^ 32 <= Z.of_nat (length buffer) -> frame_header pf buffer = None.
Proof.
  intros Hbig. unfold frame_header, htonl.
  replace (Z.of_nat (length buffer) <? 2 ^ 32) with false
    by (symmetry; apply Z.ltb_ge; lia).
  by rewrite andb_false_r.
Qed.

Lemma wire_header_decodes pf n :
  0 <= n < 2 ^ 32 -> unpack_L pf (wire_header pf n) ≫= ntohl pf = Some n.
Proof.
  intros Hn.
  pose proof (frame_header_decodes pf (replicate (Z.to_nat n) 0)) as Hdec.
  pose proof (frame_header_wire pf (replicate (Z.to_nat n) 0)) as Hwire.
  rewrite length_replicate, Z2Nat.id in Hdec, Hwire by lia.
  destruct Hdec as (hdr & Hh & _ & Hd); [lia|].
  rewrite Hwire in Hh by lia. by injection Hh as <-.
Qed.

(** The payload loop never ends on a stream that closes too early. *)
Lemma recv_loop_starved fuel : forall ch buf size,
  (length buf + length (concat ch) < size)%nat ->
  recv_loop fuel ch buf size = None.
Proof.
  induction fuel as [|fuel IH]; intros ch buf size Hshort; simpl.
  - by replace (size <=? length buf)%nat with false
      by (symmetry; apply Nat.leb_gt; lia).
  - replace (size <=? length buf)%nat with false
      by (symmetry; apply Nat.leb_gt; lia).
    destruct ch as [|c rest]; simpl recv.
    + apply IH. rewrite length_app. simpl in *. lia.
    + simpl concat in Hshort. rewrite length_app in Hshort.
      replace (length c <=? size - length buf)%nat with true
        by (symmetry; apply Nat.leb_le; lia).
      apply IH. rewrite length_app. lia.
Qed.

Section TransportOutcomes.
Context `{Pickle}.

(** When [send_message] returns [True], the peer was taking writes, the
    pickled payload is shorter than 2^32 bytes and exactly one frame, the
    header and then the payload, has been written.  A payload whose pickle
    has 2^32 bytes or more ([htonl] overflows) and a peer that refuses the
    first write each give [False] with nothing written. *)
Theorem send_message_outcome (pf : Platform) (channel : WChan) (payload : string) :
  let n := Z.of_nat (length (dumps payload)) in
  (snd (send_message pf channel payload) = true ->
   w_open channel = true /\ n < 2 ^ 32 /\
   w_bytes (fst (send_message pf channel payload))
     = w_bytes channel ++ wire_header pf n ++ dumps payload) /\
  (2 ^ 32 <= n -> send_message pf channel payload = (channel, false)) /\
  (w_open channel = false -> send_message pf channel payload = (channel, false)).
Proof.
  intros n. unfold send_message.
  destruct (n <? 2 ^ 32) eqn:Hn.
  - apply Z.ltb_lt in Hn. rewrite (frame_header_wire pf _ Hn). fold n.
    unfold chan_send. split; [|split; [lia|by intros ->]].
    destruct (w_open channel) eqn:Hopen; simpl; [|done].
    intros _. by rewrite <- app_assoc.
  - apply Z.ltb_ge in Hn. rewrite (frame_header_overflow pf _ Hn).
    split; [done|]. split; [done|].
    by destruct (frame_header pf (dumps payload)).
Qed.

(** When the peer closes after a whole header but before all the announced
    payload bytes, [receive_message] never returns: its loop keeps reading
    the empty byte string. *)
Theorem receive_message_truncated (pf : Platform) (fuel : nat) (ch : list (list Z))
  (n : Z) (body : list Z) :
  concat ch = wire_header pf n ++ body ->
  (sizeof_long pf <= length (hd [] ch))%nat ->
  Z.of_nat (length body) < n < 2 ^ 32 ->
  receive_message pf fuel ch = None.
Proof.
  intros Hcat Hfirst Hn.
  assert (Hdec := wire_header_decodes pf n ltac:(lia)).
  assert (Hl := wire_header_length pf n).
  assert (Hpos : (0 < sizeof_long pf)%nat)
    by (unfold sizeof_long; destruct (long64 pf); lia).
  destruct ch as [|c rest]; [simpl in Hfirst; lia|].
  simpl in Hfirst. simpl concat in Hcat.
  assert (Hhdr : take (sizeof_long pf) c = wire_header pf n).
  { apply (f_equal (take (sizeof_long pf))) in Hcat.
    rewrite take_app_le in Hcat by lia.
    rewrite take_app_length' in Hcat by done. done. }
  assert (Hafter : drop (sizeof_long pf) c ++ concat rest = body).
  { apply (f_equal (drop (sizeof_long pf))) in Hcat.
    rewrite drop_app_le in Hcat by lia.
    rewrite drop_app_length' in Hcat by done. done. }
  unfold receive_message. simpl recv.
  destruct (length c <=? sizeof_long pf)%nat eqn:Hfit.
  - apply Nat.leb_le in Hfit.
    rewrite take_ge in Hhdr by lia. rewrite drop_ge in Hafter by lia.
    simpl in Hafter. subst c.
    destruct (wire_header pf n) as [|b hdr'] eqn:Hw; [simpl in Hl; lia|].
    rewrite Hdec. rewrite recv_loop_starved; [done|].
    rewrite Hafter. simpl. lia.
  - rewrite Hhdr.
    destruct (wire_header pf n) as [|b hdr'] eqn:Hw; [simpl in Hl; lia|].
    rewrite Hdec. rewrite recv_loop_starved; [done|].
    simpl concat. rewrite Hafter. simpl. lia.
Qed.

(** Two frames sent one after the other are received one after the other:
    the first read of a frame leaves exactly the bytes of the next one,
    wherever the chunk boundaries fall, as long as each header comes in one
    read. *)
Theorem receive_message_in_order (pf : Platform) (fuel : nat) (ch : list (list Z))
  (first second : string) :
  Z.of_nat (length (dumps first)) < 2 ^ 32 ->
  Z.of_nat (length (dumps second)) < 2 ^ 32 ->
  chunked ch ->
  concat ch = frame_bytes pf first ++ frame_bytes pf second ->
  (sizeof_long pf <= length (hd [] ch))%nat ->
  (length (dumps first) <= fuel)%nat ->
  (length (dumps second) <= fuel)%nat ->
  exists ch',
    receive_message pf fuel ch = Some (first, ch') /\
    concat ch' = frame_bytes pf second /\
    ((sizeof_long pf <= length (hd [] ch'))%nat ->
     receive_message pf fuel ch' = Some (second, [])).
Proof.
  intros Hl1 Hl2 Hch Hcat Hfirst Hf1 Hf2.
  destruct (send_message_open pf [] first Hl1) as (hdr & _ & Hl & Hdec & Hsend).
  assert (Hframe : frame_bytes pf first = hdr ++ dumps first).
  { unfold frame_bytes. by rewrite Hsend. }
  rewrite Hframe, <- app_assoc in Hcat.
  destruct (receive_message_frame pf fuel ch hdr (dumps first)
              (frame_bytes pf second))
    as (ch' & Hrun & Hcat' & Hne); try done.
  exists ch'. rewrite Hrun, loads_dumps. split; [done|]. split; [done|].
  intros Hwhole. by apply receive_send_whole_header.
Qed.

(** A frame whose payload does not unpickle is reported like a closed peer:
    [receive_message] consumes it and returns the empty string. *)
Theorem receive_message_undecodable (pf : Platform) (fuel : nat)
  (ch : list (list Z)) (body tail : list Z) :
  loads body = None ->
  Z.of_nat (length body) < 2 ^ 32 ->
  chunked ch ->
  concat ch = wire_header pf (Z.of_nat (length body)) ++ body ++ tail ->
  (sizeof_long pf <= length (hd [] ch))%nat ->
  (length body <= fuel)%nat ->
  exists ch',
    receive_message pf fuel ch = Some (EmptyString, ch') /\ concat ch' = tail /\
    receive_message pf fuel [] = Some (EmptyString, []).
Proof.
  intros Hbad Hlen Hch Hcat Hfirst Hfuel.
  destruct (receive_message_frame pf fuel ch
              (wire_header pf (Z.of_nat (length body))) body tail)
    as (ch' & Hrun & Hcat' & _); try done.
  - apply wire_header_length.
  - apply wire_header_decodes. lia.
  - exists ch'. by rewrite Hrun, Hbad.
Qed.

(** Machines whose [unsigned long] has 4 bytes write the same frames
    whatever their byte order, so each reads what the other sent. *)
Theorem frames_portable_across_byte_order (pf1 pf2 : Platform) (fuel : nat)
  (ch : list (list Z)) (payload : string) :
  long64 pf1 = false -> long64 pf2 = false ->
  Z.of_nat (length (dumps payload)) < 2 ^ 32 ->
  chunked ch ->
  concat ch = frame_bytes pf1 payload ->
  (4 <= length (hd [] ch))%nat ->
  (length (dumps payload) <= fuel)%nat ->
  frame_bytes pf1 payload = frame_bytes pf2 payload /\
  receive_message pf2 fuel ch = Some (payload, []).
Proof.
  intros H1 H2 Hlen Hch Hcat Hfirst Hfuel.
  assert (Hsame : frame_bytes pf1 payload = frame_bytes pf2 payload).
  { unfold frame_bytes, send_message.
    rewrite !(frame_header_wire _ _ Hlen). unfold wire_header.
    by rewrite H1, H2. }
  split; [done|].
  apply receive_send_whole_header; try done.
  - by rewrite <- Hsame.
  - unfold sizeof_long. by rewrite H2.
Qed.

End TransportOutcomes.

Lemma send_message_outcome_witness :
  let channel := {| w_open := true; w_bytes := [7] |} in
  snd (send_message linux_x86_64 channel "hi") = true /\
  w_bytes (fst (send_message linux_x86_64 channel "hi"))
  = [7; 0; 0; 0; 4; 0; 0; 0; 0; 128; 104; 105; 46].
Proof.
  intros channel.
  assert (Hsent : snd (send_message linux_x86_64 channel "hi") = true)
    by (vm_compute; reflexivity).
  split; [exact Hsent|].
  destruct (send_message_outcome linux_x86_64 channel "hi") as (Hok & _).
  destruct (Hok Hsent) as (_ & _ & Hbytes).
  rewrite Hbytes. vm_compute. reflexivity.
Defined.

Lemma receive_message_truncated_witness :
  receive_message linux_x86_64 50 [[0; 0; 0; 4; 0; 0; 0; 0; 128]; [104]] = None.
Proof.
  apply (receive_message_truncated linux_x86_64 50 _ 4 [128; 104]).
  - reflexivity.
  - vm_compute. lia.
  - simpl. lia.
Defined.

Lemma receive_message_in_order_witness :
  exists ch',
    receive_message linux_x86_64 4
      [[0; 0; 0; 4; 0; 0; 0; 0; 128; 104]; [105; 46; 0; 0; 0; 4; 0; 0; 0; 0];
       [128; 104; 111; 46]] = Some ("hi", ch') /\
    concat ch' = frame_bytes linux_x86_64 "ho".
Proof.
  destruct (receive_message_in_order linux_x86_64 4
              [[0; 0; 0; 4; 0; 0; 0; 0; 128; 104];
               [105; 46; 0; 0; 0; 4; 0; 0; 0; 0]; [128; 104; 111; 46]]
              "hi" "ho") as (ch' & Hrun & Hrest & _).
  - vm_compute. reflexivity.
  - vm_compute. reflexivity.
  - repeat constructor; discriminate.
  - reflexivity.
  - vm_compute. lia.
  - vm_compute. lia.
  - vm_compute. lia.
  - exists ch'. split; [exact Hrun|exact Hrest].
Defined.

Lemma receive_message_undecodable_witness :
  exists ch',
    receive_message linux_x86_64 2 [[0; 0; 0; 2; 0; 0; 0; 0]; [7; 7]]
      = Some (EmptyString, ch') /\ concat ch' = [].
Proof.
  destruct (receive_message_undecodable linux_x86_64 2
              [[0; 0; 0; 2; 0; 0; 0; 0]; [7; 7]] [7; 7] [])
    as (ch' & Hrun & Hrest & _).
  - reflexivity.
  - simpl. lia.
  - repeat constructor; discriminate.
  - reflexivity.
  - vm_compute. lia.
  - simpl. lia.
  - exists ch'. split; [exact Hrun|exact Hrest].
Defined.

Lemma frames_portable_across_byte_order_witness :
  receive_message {| long64 := false; big_endian := true |} 4
    [frame_bytes windows_x86_64 "hi"] = Some ("hi", []).
Proof.
  destruct (frames_portable_across_byte_order windows_x86_64
              {| long64 := false; big_endian := true |} 4
              [frame_bytes windows_x86_64 "hi"] "hi") as [_ Hrun].
  - reflexivity.
  - reflexivity.
  - vm_compute. reflexivity.
  - repeat constructor; discriminate.
  - reflexivity.
  - vm_compute. lia.
  - vm_compute. lia.
  - exact Hrun.
Defined.

(** ** Rate limiter: records that are missing, forgotten or foreign *)

(** After [remove_client] the identity is treated like one never seen: its
    next check is admitted exactly when the maximum is positive, and then
    records only the current time, whatever had been recorded before; the
    other identities keep their windows. *)
Theorem remove_client_forgets (rl : RateLimiter) (id : string) (now : Z) :
  let rl' := remove_client rl id in
  window rl' id = [] /\
  (forall other, other <> id -> window rl' other = window rl other) /\
  snd (check_rate rl' now id) = (0 <? max_messages rl) /\
  window (fst (check_rate rl' now id)) id
    = (if 0 <? max_messages rl then [now] else []).
Proof.
  intros rl'.
  assert (Hempty : window rl' id = []).
  { unfold rl'. rewrite remove_client_window. by destruct (decide (id = id)). }
  split; [done|]. split.
  { intros other Hne. unfold rl'. rewrite remove_client_window.
    by destruct (decide (id = other)). }
  rewrite check_rate_window, check_rate_verdict, Hempty.
  change (prune rl' now []) with (@nil Z).
  change (Z.of_nat (length (@nil Z))) with 0.
  change (max_messages rl') with (max_messages rl).
  rewrite Z.geb_leb.
  destruct (Z.leb_spec (max_messages rl) 0) as [Hle|Hgt]; simpl negb; cbv iota.
  - replace (0 <? max_messages rl) with false by (symmetry; apply Z.ltb_ge; lia).
    done.
  - replace (0 <? max_messages rl) with true by (symmetry; apply Z.ltb_lt; lia).
    done.
Qed.

Lemma rate_step_other rl op id :
  op_client op <> id -> window (rate_step rl op) id = window rl id.
Proof.
  destruct op as [t c|c]; simpl; intros Hne.
  - by apply check_rate_other.
  - rewrite remove_client_window. by destruct (decide (c = id)).
Qed.

(** What is checked or removed for other identities never changes the
    window of an identity nor the verdict of its next check. *)
Theorem rate_limits_are_per_identity (rl : RateLimiter) (ops : list RateOp)
  (id : string) (now : Z) :
  (forall op, In op ops -> op_client op <> id) ->
  window (foldl rate_step rl ops) id = window rl id /\
  snd (check_rate (foldl rate_step rl ops) now id) = snd (check_rate rl now id).
Proof.
  intros Hother.
  assert (Hwin : window (foldl rate_step rl ops) id = window rl id).
  { revert rl. induction ops as [|op ops IH]; intros rl; simpl; [done|].
    rewrite IH.
    - apply rate_step_other, Hother. by left.
    - intros op' Hin. apply Hother. by right. }
  split; [done|].
  destruct (rate_steps_params ops rl) as [HN HW].
  rewrite !check_rate_verdict, Hwin, HN.
  unfold prune. by rewrite HW.
Qed.

Lemma rate_limits_are_per_identity_witness :
  let rl := fst (check_rate (RateLimiter_init 1 RATE_LIMIT_WINDOW) 5 "bob") in
  snd (check_rate
         (foldl rate_step rl [OpCheck 6 "amy"; OpCheck 7 "amy"; OpRemove "amy"])
         8 "bob")
  = snd (check_rate rl 8 "bob").
Proof.
  intros rl.
  apply (rate_limits_are_per_identity rl
           [OpCheck 6 "amy"; OpCheck 7 "amy"; OpRemove "amy"] "bob" 8).
  intros op [<-|[<-|[<-|[]]]]; discriminate.
Defined.

(** With a positive window, right after a check every timestamp stored for
    the identity is less than a window old. *)
Theorem check_rate_keeps_recent_only (rl : RateLimiter) (now : Z) (id : string)
  (t : Z) :
  0 < time_window rl ->
  In t (window (fst (check_rate rl now id)) id) ->
  now - t < time_window rl.
Proof.
  intros HW Hin. rewrite check_rate_window in Hin.
  destruct (snd (check_rate rl now id)).
  - apply in_app_or in Hin as [Hin|[<-|[]]]; [|lia].
    by apply prune_In in Hin as [_ Hrecent].
  - by apply prune_In in Hin as [_ Hrecent].
Qed.

Lemma check_rate_keeps_recent_only_witness :
  let rl := fst (check_rate (RateLimiter_init 3 RATE_LIMIT_WINDOW) 5 "bob") in
  90 - 90 < time_window rl.
Proof.
  intros rl.
  apply (check_rate_keeps_recent_only rl 90 "bob" 90).
  - vm_compute. reflexivity.
  - vm_compute. by left.
Defined.

(** ** The dispatcher on a frame of an active session *)

Lemma prefix_space_cons c s :
  String.prefix " " (String c s) = Ascii.eqb " " c.
Proof.
  rewrite prefix_cons, prefix_nil.
  destruct (ascii_dec " " c) as [<-|Hne]; [done|].
  symmetry. by apply Ascii.eqb_neq.
Qed.

Lemma split_max_go_cons sep c s skip left cur :
  Py.split_max_go sep (String c s) skip left cur =
    match skip with
    | S k => Py.split_max_go sep s k left cur
    | O =>
        match left with
        | O => [cur +:+ String c s]
        | S left' =>
            if String.prefix sep (String c s)
            then cur :: Py.split_max_go sep s (Nat.pred (String.length sep)) left'
                          EmptyString
            else Py.split_max_go sep s O left (cur +:+ String c EmptyString)
        end
    end.
Proof. done. Qed.

Lemma split_max_go_rest s cur : Py.split_max_go " " s 0 0 cur = [cur +:+ s].
Proof. destruct s; [by rewrite append_nil_r|done]. Qed.

(** Up to the first space the text is one piece. *)
Lemma split_max_go_word word rest : forall left cur,
  has_char " " word = false ->
  Py.split_max_go " " (word +:+ String " " rest) 0 (S left) cur
  = (cur +:+ word) :: Py.split_max_go " " rest 0 left EmptyString.
Proof.
  induction word as [|c word IH]; intros left cur Hword.
  - change (EmptyString +:+ String " " rest) with (String " " rest).
    rewrite split_max_go_cons, prefix_space_cons. simpl.
    by rewrite append_nil_r.
  - change (String c word +:+ String " " rest)
      with (String c (word +:+ String " " rest)).
    change (has_char " " (String c word))
      with (if Ascii.eqb " " c then true else has_char " " word) in Hword.
    destruct (Ascii.eqb " " c) eqn:Hc; [done|].
    rewrite split_max_go_cons, prefix_space_cons, Hc.
    rewrite IH by done. by rewrite append_assoc.
Qed.

Lemma split_max_go_no_space word : forall left cur,
  has_char " " word = false ->
  Py.split_max_go " " word 0 left cur = [cur +:+ word].
Proof.
  induction word as [|c word IH]; intros left cur Hword.
  - simpl. by rewrite append_nil_r.
  - change (has_char " " (String c word))
      with (if Ascii.eqb " " c then true else has_char " " word) in Hword.
    destruct (Ascii.eqb " " c) eqn:Hc; [done|].
    rewrite split_max_go_cons. destruct left as [|left]; [done|].
    rewrite prefix_space_cons, Hc, IH by done. by rewrite append_assoc.
Qed.

(** What the broker reads back from a [/pm] command. *)
Lemma split_pm_command target message :
  has_char " " target = false ->
  Py.split_max (pm_command target message) " " 2 = ["/pm"; target; message].
Proof.
  intros Htarget. unfold Py.split_max, pm_command.
  change ("/pm " +:+ target +:+ " " +:+ message)
    with ("/pm" +:+ String " " (target +:+ String " " message)).
  rewrite split_max_go_word by done.
  rewrite split_max_go_word by done.
  by rewrite split_max_go_rest.
Qed.

Lemma split_pm_short rest :
  has_char " " rest = false ->
  Py.split_max ("/pm " +:+ rest) " " 2 = ["/pm"; rest].
Proof.
  intros Hrest. unfold Py.split_max.
  change ("/pm " +:+ rest) with ("/pm" +:+ String " " rest).
  rewrite split_max_go_word by done.
  by rewrite split_max_go_no_space.
Qed.

Lemma on_data_checked sock data now timestamp st :
  data <> EmptyString ->
  let name := get_client_name st sock in
  let st1 := set_rate_limiter st (fst (check_rate (rate_limiter st) now name)) in
  on_data sock data now timestamp st =
    if negb (snd (check_rate (rate_limiter st) now name))
    then send_to sock rate_limit_notice st1
    else if Py.startswith data "/pm " then
      match Py.split_max data " " 2 with
      | _ :: target :: message :: _ =>
          fst (send_private_message timestamp sock target message st1)
      | _ => send_to sock "Usage: /pm <nickname> <message>" st1
      end
    else
      let msg := "[" +:+ timestamp +:+ "] " +:+ name +:+ ": " +:+ data in
      let st2 := broadcast msg (Some sock) st1 in
      {| clients := clients st2; clientmap := clientmap st2;
         nickname_map := nickname_map st2; inputs := inputs st2;
         outputs := outputs st2; rate_limiter := rate_limiter st2;
         total_messages := total_messages st2 + 1;
         private_messages := private_messages st2;
         offline_messages := offline_messages st2;
         sent := sent st2; closed := closed st2 |}.
Proof.
  intros Hne name st1. unfold on_data.
  destruct (String.eqb_spec data ""); [done|]. simpl negb. cbv iota.
  fold name. unfold st1.
  by destruct (check_rate (rate_limiter st) now name) as [rl ok].
Qed.

(** A frame of an identity over its limit is answered with the rate-limit
    notice to the sender and nothing else: no other frame is sent, the
    counters, the registry and the mailboxes stay as they are, and the
    check records no timestamp. *)
Theorem rate_limited_frame_is_dropped (sock : Sock) (data : string) (now : Z)
  (timestamp : string) (st : ChatServer) :
  data <> EmptyString ->
  snd (check_rate (rate_limiter st) now (get_client_name st sock)) = false ->
  let st' := on_data sock data now timestamp st in
  sent st' = sent st ++ [(sock, rate_limit_notice)] /\
  total_messages st' = total_messages st /\
  private_messages st' = private_messages st /\
  offline_messages st' = offline_messages st /\
  clientmap st' = clientmap st /\
  nickname_map st' = nickname_map st /\
  outputs st' = outputs st /\
  window (rate_limiter st') (get_client_name st sock)
    = prune (rate_limiter st) now
        (window (rate_limiter st) (get_client_name st sock)).
Proof.
  intros Hne Hdeny st'. unfold st'.
  rewrite on_data_checked by done. rewrite Hdeny. simpl.
  repeat split; try done.
  by rewrite check_rate_window, Hdeny.
Qed.

Lemma notices_skip_sender message sock outs frame :
  In frame (notices message (Some sock) outs) ->
  fst frame <> sock /\ In (fst frame) outs /\ snd frame = message.
Proof.
  unfold notices. rewrite in_map_iff. intros (o & <- & Ho).
  apply filter_In in Ho as [Hin Hkeep]. simpl.
  split; [|done]. intros ->.
  by rewrite bool_decide_eq_true_2 in Hkeep.
Qed.

Lemma notices_reach_others message sock outs o :
  In o outs -> o <> sock -> In (o, message) (notices message (Some sock) outs).
Proof.
  intros Hin Hne. unfold notices. apply in_map_iff. exists o. split; [done|].
  apply filter_In. split; [done|].
  rewrite bool_decide_eq_false_2; [done|]. by intros [= ->].
Qed.

(** An admitted frame that is not a command is broadcast: every other
    output socket gets [[<ts>] <name>: <text>], the sender gets nothing, and
    the public counter goes up by one. *)
Theorem public_message_broadcast (sock : Sock) (data : string) (now : Z)
  (timestamp : string) (st : ChatServer) :
  data <> EmptyString ->
  Py.startswith data "/pm " = false ->
  snd (check_rate (rate_limiter st) now (get_client_name st sock)) = true ->
  let st' := on_data sock data now timestamp st in
  let msg := "[" +:+ timestamp +:+ "] " +:+ get_client_name st sock
             +:+ ": " +:+ data in
  sent st' = sent st ++ notices msg (Some sock) (outputs st) /\
  (forall o, In o (outputs st) -> o <> sock ->
             In (o, msg) (notices msg (Some sock) (outputs st))) /\
  (forall frame, In frame (notices msg (Some sock) (outputs st)) ->
                 fst frame <> sock) /\
  total_messages st' = total_messages st + 1 /\
  private_messages st' = private_messages st /\
  offline_messages st' = offline_messages st.
Proof.
  intros Hne Hpub Hok st' msg. unfold st'.
  rewrite on_data_checked by done. rewrite Hok, Hpub. simpl negb.
  cbv iota zeta. rewrite broadcast_set. simpl.
  split; [done|]. split.
  { intros o Hin Hother. by apply notices_reach_others. }
  split; [|done].
  intros frame Hin. by apply notices_skip_sender in Hin as [Hn _].
Qed.

(** A private-message command built by the client comes apart at the broker
    into the same target and text, whatever the text contains, as long as
    the target has no space; the message is then sent to the target's socket
    and confirmed to the sender, or queued when the target is absent. *)
Theorem pm_command_routed (sock : Sock) (target message : string) (now : Z)
  (timestamp : string) (st : ChatServer) :
  has_char " " target = false ->
  snd (check_rate (rate_limiter st) now (get_client_name st sock)) = true ->
  let name := get_client_name st sock in
  let st1 := set_rate_limiter st (fst (check_rate (rate_limiter st) now name)) in
  let st' := on_data sock (pm_command target message) now timestamp st in
  st' = fst (send_private_message timestamp sock target message st1) /\
  total_messages st' = total_messages st /\
  (forall target_sock,
      Dict.get target (nickname_map st) = Some target_sock ->
      sent st'
        = sent st
          ++ [(target_sock, "[" +:+ timestamp +:+ "] PRIVATE from " +:+ name
                              +:+ ": " +:+ message);
              (sock, "[" +:+ timestamp +:+ "] PRIVATE to " +:+ target
                       +:+ ": " +:+ message)] /\
      private_messages st' = private_messages st + 1 /\
      offline_messages st' = offline_messages st) /\
  (Dict.get target (nickname_map st) = None ->
   sent st' = sent st ++ [(sock, queued_notice target)] /\
   private_messages st' = private_messages st /\
   offline_messages st'
     = <[target := default [] (offline_messages st !! target)
                   ++ [(name, message, timestamp)]]> (offline_messages st)).
Proof.
  intros Htarget Hok name st1 st'.
  assert (Hrun : st' = fst (send_private_message timestamp sock target message st1)).
  { unfold st'. rewrite on_data_checked.
    - rewrite Hok. simpl negb. cbv iota.
      replace (Py.startswith (pm_command target message) "/pm ") with true
        by (symmetry; apply (prefix_of_append "/pm ")).
      by rewrite split_pm_command.
    - unfold pm_command. discriminate. }
  split; [done|]. rewrite Hrun. unfold send_private_message.
  change (nickname_map st1) with (nickname_map st).
  split; [by destruct (Dict.get target (nickname_map st))|].
  split.
  - intros target_sock ->. simpl. by rewrite <- app_assoc.
  - intros ->. done.
Qed.

(** A [/pm] command with a target but no text is answered with the usage
    line to the sender; nothing is routed or queued. *)
Theorem pm_command_without_text (sock : Sock) (rest : string) (now : Z)
  (timestamp : string) (st : ChatServer) :
  has_char " " rest = false ->
  snd (check_rate (rate_limiter st) now (get_client_name st sock)) = true ->
  let st' := on_data sock ("/pm " +:+ rest) now timestamp st in
  sent st' = sent st ++ [(sock, "Usage: /pm <nickname> <message>")] /\
  offline_messages st' = offline_messages st /\
  private_messages st' = private_messages st /\
  total_messages st' = total_messages st.
Proof.
  intros Hrest Hok st'. unfold st'. rewrite on_data_checked by discriminate.
  rewrite Hok. simpl negb. cbv iota.
  replace (Py.startswith ("/pm " +:+ rest) "/pm ") with true
    by (symmetry; apply (prefix_of_append "/pm ")).
  by rewrite split_pm_short.
Qed.

(** ** Invariants of the broker's tables *)

Lemma list_remove_In x l s : In s (list_remove x l) -> In s l.
Proof.
  induction l as [|y l IH]; simpl; [done|].
  destruct (Nat.eqb x y); [by right|].
  intros [->|Hin]; [by left|right; by apply IH].
Qed.

Lemma list_remove_NoDup x l : NoDup l -> NoDup (list_remove x l).
Proof.
  induction 1 as [|y l Hy Hnd IH]; simpl; [constructor|].
  destruct (Nat.eqb x y); [done|]. constructor; [|done].
  rewrite list_elem_of_In in *. intros Hin. by apply Hy, (list_remove_In x).
Qed.

Lemma list_remove_In_iff x l s :
  NoDup l -> In s (list_remove x l) <-> In s l /\ s <> x.
Proof.
  induction 1 as [|y l Hy Hnd IH]; simpl; [tauto|].
  rewrite list_elem_of_In in Hy.
  destruct (Nat.eqb_spec x y) as [->|Hne].
  - split; [intros Hin; split; [by right|by intros ->]|].
    intros [[->|Hin] Hs]; done.
  - simpl. rewrite IH. split.
    + intros [->|[Hin Hs]]; [split; [by left|congruence]|split; [by right|done]].
    + intros [[->|Hin] Hs]; [by left|by right].
Qed.

Lemma list_remove_length x l :
  In x l -> S (length (list_remove x l)) = length l.
Proof.
  induction l as [|y l IH]; simpl; [done|].
  destruct (Nat.eqb_spec x y) as [->|Hne]; [done|].
  intros [->|Hin]; [done|]. simpl. by rewrite IH.
Qed.

Lemma list_remove_last x l : ~ In x l -> list_remove x (l ++ [x]) = l.
Proof.
  induction l as [|y l IH]; simpl; intros Hnot.
  - by rewrite Nat.eqb_refl.
  - destruct (Nat.eqb_spec x y) as [->|Hne]; [tauto|].
    rewrite IH; [done|tauto].
Qed.

Lemma dict_length_set_new {V} (k : string) (v : V) (d : list (string * V)) :
  Dict.get k d = None -> length (Dict.set k v d) = S (length d).
Proof.
  induction d as [|[k' v'] d IH]; simpl; [done|].
  destruct (String.eqb_spec k k'); [done|]. intros Hg. simpl. by rewrite IH.
Qed.

Lemma dict_length_del {V} (k : string) (v : V) (d : list (string * V)) :
  Dict.get k d = Some v -> S (length (Dict.del k d)) = length d.
Proof.
  induction d as [|[k' v'] d IH]; simpl; [done|].
  destruct (String.eqb_spec k k'); [done|]. intros Hg. simpl. by rewrite IH.
Qed.

Lemma dict_mem_del {V} (k k' : string) (d : list (string * V)) :
  Dict.mem k' (Dict.del k d) = true -> Dict.mem k' d = true.
Proof.
  unfold Dict.mem. destruct (Dict.get k' (Dict.del k d)) as [v|] eqn:Hg; [|done].
  intros _. apply dict_get_In in Hg. apply dict_keys_del_sub in Hg.
  destruct (Dict.get k' d) eqn:Hg'; [done|].
  by apply dict_get_None in Hg'.
Qed.

Lemma on_handshake_tables client address cname draws st st' :
  on_handshake client address cname draws st = Some st' ->
  same_tables st st' \/
  (exists name n,
      Py.startswith name "*" = false /\
      generate_unique_nickname (nickname_map st) name draws = Some n /\
      st' = joined client address n st).
Proof.
  intros Hrun.
  destruct (Py.startswith cname "NAME: ") eqn:Hs.
  - destruct (handshake_name_exists cname Hs) as (name & Hname & _).
    destruct (Py.startswith name "*") eqn:Hres.
    + left. unfold on_handshake in Hrun.
      rewrite (startswith_nonempty cname "NAME: "), Hs, Hname, Hres in Hrun by done.
      simpl in Hrun. by injection Hrun as <-.
    + destruct (generate_unique_nickname (nickname_map st) name draws) as [n|] eqn:Hgen.
      * right. exists name, n.
        rewrite (on_handshake_joins _ _ _ name n) in Hrun by done.
        by injection Hrun as <-.
      * unfold on_handshake in Hrun.
        rewrite (startswith_nonempty cname "NAME: "), Hs, Hname, Hres, Hgen in Hrun
          by done.
        done.
  - left. unfold on_handshake in Hrun. rewrite Hs, orb_true_r in Hrun.
    by injection Hrun as <-.
Qed.

Lemma on_data_tables sock data now timestamp st :
  data <> EmptyString ->
  let st' := on_data sock data now timestamp st in
  clients st' = clients st /\
  clientmap st' = clientmap st /\
  nickname_map st' = nickname_map st /\
  inputs st' = inputs st /\
  outputs st' = outputs st /\
  rate_limiter st' = fst (check_rate (rate_limiter st) now (get_client_name st sock)) /\
  (offline_messages st' = offline_messages st \/
   exists target e,
     Dict.get target (nickname_map st) = None /\
     offline_messages st'
       = <[target := default [] (offline_messages st !! target) ++ [e]]>
           (offline_messages st)).
Proof.
  intros Hne st'. unfold st'. rewrite on_data_checked by done.
  destruct (snd (check_rate (rate_limiter st) now (get_client_name st sock)));
    simpl negb; cbv iota zeta; [|by repeat split; try left].
  destruct (Py.startswith data "/pm ").
  - destruct (Py.split_max data " " 2) as [|? [|target [|message ?]]];
      try (by repeat split; try left).
    unfold send_private_message.
    change (nickname_map (set_rate_limiter st _)) with (nickname_map st).
    destruct (Dict.get target (nickname_map st)) eqn:Hg; simpl.
    + by repeat split; try left.
    + repeat split; try done. right. by eexists _, _.
  - rewrite broadcast_set. simpl. by repeat split; try left.
Qed.

Lemma list_remove_absent x l : ~ In x l -> list_remove x l = l.
Proof.
  induction l as [|y l IH]; simpl; [done|]. intros Hnot.
  destruct (Nat.eqb_spec x y) as [->|Hne]; [tauto|].
  rewrite IH; [done|tauto].
Qed.

Lemma sessions_listed_same st st' :
  same_tables st st' -> sessions_listed st -> sessions_listed st'.
Proof.
  intros (Hcl & Hcm & Hnm & Hin & Hout & _ & _). unfold sessions_listed.
  by rewrite Hcl, Hcm, Hin, Hout.
Qed.

Lemma sessions_listed_joined client address n st :
  clientmap st !! client = None ->
  sessions_listed st -> sessions_listed (joined client address n st).
Proof.
  intros Hfresh (Hio & Hnd & Hmem & Hcl).
  assert (Hnew : ~ In client (outputs st)).
  { intros Hin. apply Hmem in Hin as [x Hx]. congruence. }
  unfold sessions_listed, joined. simpl.
  split; [by rewrite Hio|]. split.
  { apply NoDup_app. split; [done|]. split; [|apply NoDup_singleton].
    intros x Hx Hx'. apply list_elem_of_singleton in Hx' as ->.
    by apply list_elem_of_In in Hx. }
  split.
  { intros s. rewrite in_app_iff, Hmem. simpl.
    destruct (decide (client = s)) as [->|Hne].
    - rewrite lookup_insert_eq. split; [by eexists|by right; left].
    - rewrite lookup_insert_ne by done. split; [|by left].
      intros [Hs|[Hs|[]]]; [done|congruence]. }
  rewrite length_app. simpl. lia.
Qed.

(** The teardown of any socket, under whatever name. *)
Lemma sessions_listed_departed sock n st :
  sessions_listed st -> sessions_listed (departed sock n st).
Proof.
  intros (Hio & Hnd & Hmem & Hcl).
  unfold sessions_listed, departed. simpl.
  split; [by rewrite Hio|]. split; [by apply list_remove_NoDup|]. split.
  { intros s. rewrite list_remove_In_iff by done. rewrite Hmem.
    destruct (decide (sock = s)) as [->|Hne].
    - rewrite lookup_delete_eq. split; [by intros [_ ?]|by intros [? ?]].
    - rewrite lookup_delete_ne by done. split; [by intros [? _]|].
      intros Hs. split; [done|congruence]. }
  destruct (in_dec Nat.eq_dec sock (outputs st)) as [Hin|Hnot].
  - pose proof (list_remove_length sock (outputs st) Hin). lia.
  - rewrite list_remove_absent by done. lia.
Qed.

Lemma handle_client_disconnect_session sock address n st :
  clientmap st !! sock = Some (address, n) ->
  handle_client_disconnect sock st = departed sock n st.
Proof.
  intros Hsock.
  by rewrite handle_client_disconnect_departed,
    (get_client_name_session _ _ _ _ Hsock).
Qed.

Lemma handle_listed st ev st' :
  handle st ev = Some st' -> enabled st ev ->
  sessions_listed st -> sessions_listed st'.
Proof.
  intros Hrun Hen Hok.
  assert (Hleave : forall sock, sessions_listed (handle_client_disconnect sock st)).
  { intros sock. rewrite handle_client_disconnect_departed.
    by apply sessions_listed_departed. }
  destruct ev as [client address cname draws|sock data now timestamp|sock];
    simpl in Hen, Hrun.
  - destruct (on_handshake_tables _ _ _ _ _ _ Hrun)
      as [Hsame|(name & n & _ & Hgen & ->)].
    + by apply (sessions_listed_same st).
    + by apply sessions_listed_joined.
  - injection Hrun as <-.
    destruct (String.eqb_spec data "") as [->|Hne]; [by apply Hleave|].
    destruct (on_data_tables sock data now timestamp st Hne)
      as (Hcl & Hcm & Hnm & Hin & Hout & _).
    destruct Hok as (Hio & Hnd & Hmem & Hc).
    unfold sessions_listed. by rewrite Hcl, Hcm, Hin, Hout.
  - injection Hrun as <-. by apply Hleave.
Qed.

Lemma reachable_listed st : reachable st -> sessions_listed st.
Proof.
  induction 1 as [|st ev st' Hreach IH Hen Hrun].
  - unfold sessions_listed. simpl. split; [done|]. split; [constructor|].
    split; [|done]. intros s. rewrite lookup_empty. split; [done|by intros [? ?]].
  - by apply (handle_listed st ev).
Qed.

(** Sessions 1 ([Unknown]) and 2 ([bob]) join; socket 2 sends an empty
    frame and is reported exceptional in the same turn of the loop. *)
Lemma reachable_double_teardown :
  reachable
    (handle_client_disconnect 2%nat
       (handle_client_disconnect 2%nat
          (joined 2%nat ("10.0.0.2", 5002) "bob"
             (joined 1%nat ("10.0.0.1", 5001) "Unknown" ChatServer_init)))).
Proof.
  set (st1 := joined 1%nat ("10.0.0.1", 5001) "Unknown" ChatServer_init).
  set (st2 := joined 2%nat ("10.0.0.2", 5002) "bob" st1).
  set (st3 := handle_client_disconnect 2%nat st2).
  apply (reachable_step st3 (Exceptional 2%nat)); [|right; vm_compute; tauto|reflexivity].
  apply (reachable_step st2 (Readable 2%nat "" 30 "10:00:00"));
    [|vm_compute; eauto|reflexivity].
  apply (reachable_step st1 (Accept 2%nat ("10.0.0.2", 5002) "NAME: bob" []));
    [|reflexivity|reflexivity].
  apply (reachable_step ChatServer_init
           (Accept 1%nat ("10.0.0.1", 5001) "NAME: Unknown" []));
    [apply reachable_init|reflexivity|reflexivity].
Qed.

(** In every state the broker reaches, [inputs] (the listening socket
    apart) and [outputs] list exactly the sockets that have a session, each
    once, and the [clients] counter (the number shown in the join and leave
    notices) never exceeds the number of sessions.  An event handled on a
    socket that has a session keeps the counter equal to that number; a
    teardown of a socket that has none lowers the counter and leaves the
    lists as they are. *)
Theorem sessions_are_listed (st : ChatServer) :
  reachable st ->
  sessions_listed st /\
  (forall ev st',
      enabled st ev -> on_session st ev -> handle st ev = Some st' ->
      clients st = Z.of_nat (length (outputs st)) ->
      clients st' = Z.of_nat (length (outputs st'))) /\
  (forall sock,
      clientmap st !! sock = None ->
      let st' := handle_client_disconnect sock st in
      clients st' = clients st - 1 /\
      inputs st' = inputs st /\ outputs st' = outputs st /\
      clientmap st' = clientmap st).
Proof.
  intros Hreach. pose proof (reachable_listed st Hreach) as Hok.
  split; [done|]. destruct Hok as (Hio & Hnd & Hmem & Hcl). split.
  - intros ev st' Hen Hsess Hrun Hexact.
    assert (Hleave : forall sock, is_Some (clientmap st !! sock) ->
              clients (handle_client_disconnect sock st)
              = Z.of_nat (length (outputs (handle_client_disconnect sock st)))).
    { intros sock Hsock. rewrite handle_client_disconnect_departed.
      unfold departed. simpl. apply Hmem in Hsock.
      pose proof (list_remove_length sock (outputs st) Hsock). lia. }
    destruct ev as [client address cname draws|sock data now timestamp|sock];
      simpl in Hen, Hsess, Hrun.
    + destruct (on_handshake_tables _ _ _ _ _ _ Hrun)
        as [(Hc & _ & _ & _ & Hout & _)|(name & n & _ & Hgen & ->)].
      * by rewrite Hc, Hout.
      * unfold joined. simpl. rewrite length_app. simpl. lia.
    + injection Hrun as <-.
      destruct (String.eqb_spec data "") as [->|Hne]; [by apply Hleave|].
      destruct (on_data_tables sock data now timestamp st Hne)
        as (Hc & _ & _ & _ & Hout & _).
      by rewrite Hc, Hout.
    + injection Hrun as <-. by apply Hleave.
  - intros sock Hnone st'. unfold st'.
    rewrite handle_client_disconnect_departed. unfold departed. simpl.
    assert (Hnot : ~ In sock (outputs st)).
    { intros Hin. apply Hmem in Hin as [x Hx]. congruence. }
    rewrite Hio, list_remove_absent by done.
    rewrite delete_id by done. done.
Qed.

(** In every state the broker reaches, no nickname that is in use has a
    mailbox, and every mailbox that exists holds at least one entry: mail
    waits only for absent nicknames and is dropped as a whole at the join. *)
Theorem mail_waits_only_for_absent (st : ChatServer) :
  reachable st -> mail_for_absent st.
Proof.
  induction 1 as [|st ev st' Hreach IH Hen Hrun].
  - split; [done|]. intros n queue. simpl. by rewrite lookup_empty.
  - destruct IH as [Hactive Hfull].
    assert (Hleave : forall sock,
              mail_for_absent (handle_client_disconnect sock st)).
    { intros sock. rewrite handle_client_disconnect_departed.
      unfold mail_for_absent, departed. simpl. split; [|done].
      intros n Hmem. by apply Hactive, (dict_mem_del (get_client_name st sock)). }
    destruct ev as [client address cname draws|sock data now timestamp|sock];
      simpl in Hen, Hrun.
    + destruct (on_handshake_tables _ _ _ _ _ _ Hrun)
        as [(_ & _ & Hnm & _ & _ & _ & Hoff)|(name & n & _ & Hgen & ->)].
      * unfold mail_for_absent. by rewrite Hnm, Hoff.
      * unfold mail_for_absent, joined. simpl. split.
        -- intros n' Hmem. destruct (decide (n = n')) as [->|Hne].
           ++ apply lookup_delete_eq.
           ++ rewrite lookup_delete_ne by done. apply Hactive.
              unfold Dict.mem in *. by rewrite dict_get_set_ne in Hmem.
        -- intros n' queue Hq. apply lookup_delete_Some in Hq as [_ Hq].
           by apply (Hfull n').
    + injection Hrun as <-.
      destruct (String.eqb_spec data "") as [->|Hne]; [by apply Hleave|].
      destruct (on_data_tables sock data now timestamp st Hne)
        as (_ & _ & Hnm & _ & _ & _ & [Hoff|(target & e & Habsent & Hoff)]).
      * unfold mail_for_absent. by rewrite Hnm, Hoff.
      * unfold mail_for_absent. rewrite Hnm, Hoff. split.
        -- intros n Hmem. rewrite lookup_insert_ne; [by apply Hactive|].
           intros ->. apply dict_mem_false in Habsent. congruence.
        -- intros n queue Hq. destruct (decide (target = n)) as [->|Hne'].
           ++ rewrite lookup_insert_eq in Hq. injection Hq as <-.
              by destruct (default [] (offline_messages st !! n)).
           ++ rewrite lookup_insert_ne in Hq by done. by apply (Hfull n).
    + injection Hrun as <-. apply Hleave.
Qed.

(** In every state the broker reaches, the limiter still has the configured
    maximum and window, and no identity has more than that maximum of
    timestamps on record. *)
Theorem broker_limiter_bounded (st : ChatServer) :
  reachable st -> limiter_bounded st.
Proof.
  induction 1 as [|st ev st' Hreach IH Hen Hrun].
  - unfold limiter_bounded. simpl. split; [done|]. split; [done|].
    intros id. unfold window. simpl. rewrite lookup_empty. simpl.
    unfold MESSAGE_RATE_LIMIT. lia.
  - destruct IH as (HN & HW & Hb).
    assert (Hleave : forall sock,
              limiter_bounded (handle_client_disconnect sock st)).
    { intros sock. rewrite handle_client_disconnect_departed.
      unfold limiter_bounded, departed. simpl. split; [done|]. split; [done|].
      intros id. rewrite remove_client_window.
      destruct (decide (get_client_name st sock = id)); [|apply Hb].
      simpl. unfold MESSAGE_RATE_LIMIT. lia. }
    destruct ev as [client address cname draws|sock data now timestamp|sock];
      simpl in Hen, Hrun.
    + destruct (on_handshake_tables _ _ _ _ _ _ Hrun)
        as [(_ & _ & _ & _ & _ & Hrl & _)|(name & n & _ & _ & ->)].
      * unfold limiter_bounded. by rewrite Hrl.
      * done.
    + injection Hrun as <-.
      destruct (String.eqb_spec data "") as [->|Hne]; [by apply Hleave|].
      destruct (on_data_tables sock data now timestamp st Hne)
        as (_ & _ & _ & _ & _ & Hrl & _).
      unfold limiter_bounded. rewrite Hrl.
      destruct (check_rate_params (rate_limiter st) now (get_client_name st sock))
        as [-> ->].
      split; [done|]. split; [done|]. intros id. rewrite <- HN.
      apply check_rate_bounded; rewrite HN; [unfold MESSAGE_RATE_LIMIT; lia|apply Hb].
    + injection Hrun as <-. apply Hleave.
Qed.

(** ** Joins and teardowns *)

(** A client that joins and leaves at once leaves the tables as they were:
    the counter, both maps and both socket lists are back, its rate window
    is gone; only the mail that waited for its nickname has been handed
    over. *)
Theorem join_then_leave_restores (client : Sock) (address : Address) (n : string)
  (st : ChatServer) :
  clientmap st !! client = None ->
  ~ In client (inputs st) ->
  ~ In client (outputs st) ->
  Dict.get n (nickname_map st) = None ->
  let st' := handle_client_disconnect client (joined client address n st) in
  clients st' = clients st /\
  clientmap st' = clientmap st /\
  nickname_map st' = nickname_map st /\
  inputs st' = inputs st /\
  outputs st' = outputs st /\
  offline_messages st' = delete n (offline_messages st) /\
  window (rate_limiter st') n = [] /\
  closed st' = closed st ++ [client].
Proof.
  intros Hfresh Hin Hout Hfree st'. unfold st'.
  rewrite (handle_client_disconnect_session client address n)
    by (unfold joined; simpl; apply lookup_insert_eq).
  unfold departed, joined. simpl.
  rewrite delete_insert_id, dict_del_set_new, !list_remove_last by done.
  rewrite remove_client_window. destruct (decide (n = n)); [|done].
  repeat split; try done. lia.
Qed.

Lemma join_then_leave_restores_witness :
  let st := joined 1%nat ("10.0.0.1", 5000) "bob" ChatServer_init in
  let st' := handle_client_disconnect 2%nat
               (joined 2%nat ("10.0.0.2", 5001) "amy" st) in
  clients st' = clients st /\ nickname_map st' = nickname_map st.
Proof.
  intros st st'.
  destruct (join_then_leave_restores 2%nat ("10.0.0.2", 5001) "amy" st)
    as (Hcl & _ & Hnm & _).
  - reflexivity.
  - simpl. intros [Heq|[]]. discriminate.
  - simpl. intros [Heq|[]]. discriminate.
  - reflexivity.
  - split; [exact Hcl|exact Hnm].
Defined.

(** A teardown of a socket that has no session acts on the name
    ["Unknown"]: the counter still goes down by one and the registry entry
    of that name is deleted.  When a session carries that name it stays in
    [clientmap] without its registry entry, and the name can be claimed again
    while that session is active. *)
Theorem teardown_without_session (st : ChatServer) (sock : Sock) :
  registry_ok st ->
  clientmap st !! sock = None ->
  let st' := handle_client_disconnect sock st in
  clients st' = clients st - 1 /\
  clientmap st' = clientmap st /\
  nickname_map st' = Dict.del "Unknown" (nickname_map st) /\
  forall s address,
    clientmap st !! s = Some (address, "Unknown") ->
    clientmap st' !! s = Some (address, "Unknown") /\
    Dict.get "Unknown" (nickname_map st') = None /\
    ~ registry_ok st' /\
    forall draws,
      generate_unique_nickname (nickname_map st') "Unknown" draws = Some "Unknown".
Proof.
  intros (Hnd & Hcm & Hnm) Hnone st'. unfold st'.
  rewrite handle_client_disconnect_no_session by done.
  unfold departed. simpl. rewrite delete_id by done.
  split; [done|]. split; [done|]. split; [done|].
  intros s address Hs.
  assert (Hgone : Dict.get "Unknown" (Dict.del "Unknown" (nickname_map st)) = None)
    by by apply dict_get_del_eq.
  split; [done|]. split; [done|]. split.
  - intros (_ & Hcm' & _). simpl in Hcm'.
    specialize (Hcm' s address "Unknown" Hs). congruence.
  - intros draws. apply generate_free. by apply dict_mem_false.
Qed.

Lemma teardown_without_session_witness :
  let st := joined 1%nat ("10.0.0.1", 5000) "Unknown" ChatServer_init in
  let st' := handle_client_disconnect 2%nat st in
  clientmap st' !! 1%nat = Some (("10.0.0.1", 5000), "Unknown") /\
  Dict.get "Unknown" (nickname_map st') = None.
Proof.
  intros st st'.
  assert (Hok : registry_ok st).
  { apply registry_ok_joined; [|reflexivity|reflexivity].
    unfold registry_ok. simpl. split; [constructor|]. split; [|done].
    intros sock a n Hlk. by rewrite lookup_empty in Hlk. }
  destruct (teardown_without_session st 2%nat Hok) as (_ & _ & _ & Hname).
  - reflexivity.
  - destruct (Hname 1%nat ("10.0.0.1", 5000)) as (Hstay & Hgone & _).
    + reflexivity.
    + split; [exact Hstay|exact Hgone].
Defined.

(** A client asking for a nickname that is in use is admitted under that
    name with the drawn digits appended, is told so in its [CLIENT:] reply,
    and is handed the mail that was waiting under the suffixed name. *)
Theorem collision_joins_under_suffixed_name (client : Sock) (address : Address)
  (base : string) (d : Draw) (draws : list Draw) (st : ChatServer) :
  Dict.mem base (nickname_map st) = true ->
  Dict.mem (base +:+ suffix d) (nickname_map st) = false ->
  Py.startswith base "*" = false ->
  Py.split base "NAME: " = [base] ->
  let n := base +:+ suffix d in
  let st' := joined client address n st in
  on_handshake client address (name_frame base) (d :: draws) st = Some st' /\
  n <> base /\
  clientmap st' !! client = Some (address, n) /\
  In (client, "CLIENT: " +:+ n) (sent st') /\
  forall e, In e (default [] (offline_messages st !! n)) ->
            In (client, offline_frame e) (sent st').
Proof.
  intros Hheld Hfree Hstar Hplain n st'.
  split.
  { apply (on_handshake_joins _ _ _ base).
    - apply (prefix_of_append "NAME: ").
    - unfold name_frame. by rewrite split_after_marker, Hplain.
    - done.
    - unfold generate_unique_nickname. rewrite Hheld. simpl negb. cbv iota.
      by apply (generate_loop_first _ _ [] d draws). }
  split; [intros Heq; unfold n in Heq; congruence|].
  unfold st', joined. simpl.
  split; [apply lookup_insert_eq|]. split.
  - apply in_or_app. right. by left.
  - intros e He. apply in_or_app. right. right. right.
    apply in_or_app. left. apply in_map_iff. by exists e.
Qed.

Lemma collision_joins_under_suffixed_name_witness :
  let st := joined 1%nat ("10.0.0.1", 5000) "bob" ChatServer_init in
  on_handshake 2%nat ("10.0.0.2", 5001) "NAME: bob" [(D4, D2, D7)] st
  = Some (joined 2%nat ("10.0.0.2", 5001) "bob427" st).
Proof.
  intros st.
  refine (proj1 (collision_joins_under_suffixed_name 2%nat ("10.0.0.2", 5001)
                   "bob" (D4, D2, D7) [] st _ _ _ _)); reflexivity.
Defined.

Section SplitHeader.
Context `{Pickle}.

(** A peer whose length header does not arrive in one read loses its
    connection: a connecting client is closed without any reply, and an
    active session is torn down as if it had left. *)
Theorem split_header_drops_peer (pf : Platform) (fuel : nat) (sock : Sock)
  (address : Address) (c : list Z) (rest : list (list Z)) (draws : list Draw)
  (now : Z) (timestamp : string) (st : ChatServer) :
  c <> [] ->
  (length c < sizeof_long pf)%nat ->
  handle_new_connection pf fuel sock address (c :: rest) draws st
    = Some (close_sock sock st) /\
  handle_client_message pf fuel sock (c :: rest) now timestamp st
    = Some (handle_client_disconnect sock st).
Proof.
  intros Hc Hshort.
  unfold handle_new_connection, handle_client_message.
  by rewrite receive_message_short_header.
Qed.

End SplitHeader.

Lemma split_header_drops_peer_witness :
  let st := joined 1%nat ("10.0.0.1", 5000) "bob" ChatServer_init in
  handle_client_message linux_x86_64 9 1%nat
    [[0; 0; 0; 4]; [0; 0; 0; 0; 128; 104; 105; 46]] 30 "10:00:00" st
  = Some (handle_client_disconnect 1%nat st).
Proof.
  intros st.
  destruct (split_header_drops_peer linux_x86_64 9 1%nat ("10.0.0.1", 5000)
              [0; 0; 0; 4] [[0; 0; 0; 0; 128; 104; 105; 46]] [] 30 "10:00:00" st)
    as [_ Hrun].
  - discriminate.
  - vm_compute. lia.
  - exact Hrun.
Defined.

(** ** The relay: rewriting, counting, pairing *)

Lemma prefix_startswith_star name t :
  String.prefix name t = true ->
  Py.startswith name "*" = true -> Py.startswith t "*" = true.
Proof.
  unfold Py.startswith. intros Hpre Hstar.
  destruct name as [|c name]; [done|]. destruct t as [|c' t]; [done|].
  rewrite prefix_cons in *.
  destruct (ascii_dec c c') as [<-|]; [|done].
  destruct (ascii_dec "*" c); [|done]. by rewrite prefix_nil.
Qed.

Lemma on_handshake_reserved client address cname draws st :
  Py.startswith cname "NAME: *" = true ->
  on_handshake client address cname draws st
  = Some (close_sock client (send_to client ("ERROR: " +:+ reserved_error) st)).
Proof.
  intros Hs.
  destruct (handshake_name_reserved cname Hs) as (Hmark & name & Hname & Hstar).
  unfold on_handshake.
  by rewrite (startswith_nonempty cname "NAME: "), Hmark, Hname, Hstar.
Qed.

(** What the relay makes of a handshake always opens with [NAME: *]. *)
Lemma rewrite_nickname_marks data :
  Py.startswith data "NAME: " = true ->
  exists data', rewrite_nickname data = Some data' /\
                Py.startswith data' "NAME: *" = true.
Proof.
  intros Hs.
  destruct (rewrite_nickname_prefix data Hs) as (t & name & -> & Hpre & ->).
  destruct (Py.startswith name "*") eqn:Hstar.
  - eexists. split; [done|].
    pose proof (prefix_startswith_star _ _ Hpre Hstar) as Ht.
    unfold Py.startswith in Ht. destruct (prefix_append _ _ Ht) as [r ->].
    apply (prefix_of_append "NAME: *").
  - eexists. split; [done|]. apply (prefix_of_append "NAME: *").
Qed.

(** [rewrite_nickname] never fails, and rewriting its result changes
    nothing more: a handshake that went through a relay goes through a
    second one unchanged. *)
Theorem rewrite_nickname_idempotent (data : string) :
  exists data',
    rewrite_nickname data = Some data' /\ rewrite_nickname data' = Some data'.
Proof.
  destruct (Py.startswith data "NAME: ") eqn:Hs.
  - destruct (rewrite_nickname_marks data Hs) as (data' & Hrw & Hmark).
    exists data'. split; [done|]. by apply rewrite_nickname_marked.
  - exists data. by rewrite rewrite_nickname_other.
Qed.

(** Every client that connects through the relay is refused by the broker:
    the relay forwards its handshake with a [*] before the name, and the
    broker answers such a handshake with the reserved-name error and closes,
    without creating a session. *)
Theorem relayed_handshake_is_refused (data : string) (rest : list string)
  (accepts : nat) (client : Sock) (address : Address) (draws : list Draw)
  (st : ChatServer) :
  Py.startswith data "NAME: " = true ->
  exists data',
    fst (forward_data true (data :: rest) (S accepts)) = data' :: relayed rest accepts /\
    Py.startswith data' "NAME: *" = true /\
    on_handshake client address data' draws st
      = Some (close_sock client
                (send_to client ("ERROR: " +:+ reserved_error) st)) /\
    clientmap (close_sock client
                 (send_to client ("ERROR: " +:+ reserved_error) st))
      = clientmap st.
Proof.
  intros Hs. destruct (rewrite_nickname_marks data Hs) as (data' & Hrw & Hmark).
  exists data'. split.
  { rewrite forward_data_first.
    - by rewrite Hs, Hrw.
    - intros ->. discriminate. }
  split; [done|]. split; [by apply on_handshake_reserved|done].
Qed.

Lemma relayed_handshake_is_refused_witness :
  exists data',
    fst (forward_data true ["NAME: dan"; "hello"] 2) = [data'; "hello"] /\
    on_handshake 1%nat ("10.0.0.1", 5000) data' [] ChatServer_init
      = Some (close_sock 1%nat
                (send_to 1%nat ("ERROR: " +:+ reserved_error) ChatServer_init)).
Proof.
  destruct (relayed_handshake_is_refused "NAME: dan" ["hello"] 1 1%nat
              ("10.0.0.1", 5000) [] ChatServer_init)
    as (data' & Hfwd & _ & Hrun & _).
  - reflexivity.
  - exists data'. split; [exact Hfwd|exact Hrun].
Defined.

(** A pairing is stored in both directions and removed in both by one
    [cleanup_connection], whichever forwarding side calls it; the call of
    the other side afterwards finds nothing left to remove.  A failed
    connect stores nothing and closes the client. *)
Theorem pairing_is_cleaned_up_once (client server : Sock) (r : ChatRelay) :
  connections r !! client = None ->
  connections r !! server = None ->
  client <> server ->
  let paired := handle_client_connection client (Some server) r in
  connections paired !! client = Some server /\
  connections paired !! server = Some client /\
  size (connections paired) = S (S (size (connections r))) /\
  active_connections paired = S (active_connections r) /\
  connections (cleanup_connection client server paired) = connections r /\
  connections (cleanup_connection server client paired) = connections r /\
  connections (cleanup_connection server client
                 (cleanup_connection client server paired)) = connections r /\
  handle_client_connection client None r
    = {| connections := connections r;
         relay_closed := relay_closed r ++ [client] |}.
Proof.
  intros Hc Hs Hne paired. unfold paired, handle_client_connection,
    cleanup_connection. simpl.
  split; [by rewrite lookup_insert_ne, lookup_insert_eq|].
  split; [by rewrite lookup_insert_eq|].
  assert (Hsize : size (<[server:=client]> (<[client:=server]> (connections r)))
                  = S (S (size (connections r)))).
  { rewrite !map_size_insert_None; [done|done|].
    by rewrite lookup_insert_ne. }
  split; [done|]. split.
  { unfold active_connections. cbn [connections]. rewrite Hsize.
    replace (S (S (size (connections r)))) with (size (connections r) + 1 * 2)%nat
      by lia.
    rewrite Nat.div_add by done. lia. }
  assert (Hback1 : delete server
                     (delete client
                        (<[server:=client]> (<[client:=server]> (connections r))))
                   = connections r).
  { rewrite (delete_insert_ne _ client server) by done.
    rewrite (delete_insert_id (connections r) client) by done.
    by rewrite delete_insert_id. }
  assert (Hback2 : delete client
                     (delete server
                        (<[server:=client]> (<[client:=server]> (connections r))))
                   = connections r).
  { rewrite (delete_insert_id _ server) by by rewrite lookup_insert_ne.
    by rewrite delete_insert_id. }
  split; [done|]. split; [done|]. split; [|done].
  rewrite Hback1. rewrite (delete_id _ server) by done.
  by rewrite delete_id.
Qed.

Lemma pairing_is_cleaned_up_once_witness :
  let r := {| connections := ∅; relay_closed := [] |} in
  connections (cleanup_connection 2%nat 1%nat
                 (handle_client_connection 1%nat (Some 2%nat) r))
  = connections r.
Proof.
  intros r.
  destruct (pairing_is_cleaned_up_once 1%nat 2%nat r)
    as (_ & _ & _ & _ & _ & Hback & _).
  - reflexivity.
  - reflexivity.
  - discriminate.
  - exact Hback.
Defined.

(** ** The log buffer *)

Lemma log_message_drop timestamp message buffer :
  (length buffer <= MAX_BUFFER_SIZE)%nat ->
  log_message true timestamp message buffer
  = drop (length (buffer ++ [log_entry_of (timestamp, message)]) - MAX_BUFFER_SIZE)
         (buffer ++ [log_entry_of (timestamp, message)]).
Proof.
  intros Hlen. unfold log_message, log_entry_of. simpl fst. simpl snd.
  set (entry := "[" +:+ timestamp +:+ "] " +:+ message).
  rewrite length_app. simpl length.
  destruct (Nat.ltb_spec MAX_BUFFER_SIZE (length buffer + 1)) as [Hover|Hfits].
  - replace (length buffer + 1 - MAX_BUFFER_SIZE)%nat with 1%nat by lia.
    by destruct (buffer ++ [entry]).
  - by replace (length buffer + 1 - MAX_BUFFER_SIZE)%nat with 0%nat by lia.
Qed.

Lemma log_all_drop entries : forall buffer,
  (length buffer <= MAX_BUFFER_SIZE)%nat ->
  log_all entries buffer
  = drop (length (buffer ++ map log_entry_of entries) - MAX_BUFFER_SIZE)
         (buffer ++ map log_entry_of entries).
Proof.
  induction entries as [|[timestamp message] entries IH]; intros buffer Hlen.
  - unfold log_all. simpl. rewrite app_nil_r.
    by replace (length buffer - MAX_BUFFER_SIZE)%nat with 0%nat by lia.
  - change (log_all ((timestamp, message) :: entries) buffer)
      with (log_all entries (log_message true timestamp message buffer)).
    rewrite (log_message_drop timestamp message buffer Hlen).
    set (line := log_entry_of (timestamp, message)).
    set (X := buffer ++ [line]).
    set (k := (length X - MAX_BUFFER_SIZE)%nat).
    assert (HX : length X = S (length buffer))
      by (unfold X; rewrite length_app; simpl; lia).
    replace (buffer ++ map log_entry_of ((timestamp, message) :: entries))
      with (X ++ map log_entry_of entries)
      by (unfold X; by rewrite <- app_assoc).
    rewrite IH by (rewrite length_drop; lia).
    rewrite <- (drop_app_le X (map log_entry_of entries) k) by lia.
    rewrite drop_drop. f_equal.
    rewrite length_drop, !length_app. lia.
Qed.

(** [message_buffer] never holds more than [MAX_BUFFER_SIZE] lines: after
    any run of logged messages it holds the most recent ones, in order, and
    a message whose log file could not be written leaves it untouched. *)
Theorem log_buffer_keeps_latest (entries : list (string * string))
  (timestamp message : string) (buffer : list string) :
  (length buffer <= MAX_BUFFER_SIZE)%nat ->
  (length (log_all entries buffer) <= MAX_BUFFER_SIZE)%nat /\
  log_all entries []
    = drop (length entries - MAX_BUFFER_SIZE) (map log_entry_of entries) /\
  log_message false timestamp message buffer = buffer.
Proof.
  intros Hlen. split; [|split; [|done]].
  - rewrite log_all_drop by done. rewrite length_drop. lia.
  - rewrite log_all_drop by (simpl; lia). simpl. by rewrite length_map.
Qed.

Lemma log_buffer_keeps_latest_witness :
  log_all [("10:00:00", "bob joined"); ("10:00:01", "amy joined")] []
  = ["[10:00:00] bob joined"; "[10:00:01] amy joined"].
Proof.
  destruct (log_buffer_keeps_latest
              [("10:00:00", "bob joined"); ("10:00:01", "amy joined")]
              "" "" []) as (_ & Hrun & _).
  - simpl. lia.
  - rewrite Hrun. reflexivity.
Defined.

(** ** The clients' side of the handshake *)

Lemma split_after_client_marker t :
  Py.split ("CLIENT: " +:+ t) "CLIENT: " = EmptyString :: Py.split t "CLIENT: ".
Proof. unfold Py.split. simpl. by rewrite prefix_nil. Qed.

(** The reply to an admitted handshake is the first frame the broker sends
    to the new client, and the client reads its assigned nickname back from
    it when the nickname does not contain the text [CLIENT: ]; after any
    other reply (the reserved-name error, or a closed connection) the client
    keeps the nickname it asked for. *)
Theorem handshake_reply_read_back (client : Sock) (address : Address)
  (n requested data : string) (st : ChatServer) :
  Py.split n "CLIENT: " = [n] ->
  Py.startswith data "CLIENT: " = false ->
  (exists later,
      sent (joined client address n st)
      = sent st ++ (client, "CLIENT: " +:+ n) :: later) /\
  assigned_nickname requested ("CLIENT: " +:+ n) = Some n /\
  assigned_nickname requested data = Some requested.
Proof.
  intros Hplain Hother. split.
  { unfold joined. simpl. by eexists. }
  split.
  - unfold assigned_nickname.
    replace (Py.startswith ("CLIENT: " +:+ n) "CLIENT: ") with true
      by (symmetry; apply (prefix_of_append "CLIENT: ")).
    by rewrite split_after_client_marker, Hplain.
  - unfold assigned_nickname. by rewrite Hother, andb_false_r.
Qed.

Lemma handshake_reply_read_back_witness :
  assigned_nickname "bob" "CLIENT: bob427" = Some "bob427" /\
  assigned_nickname "*eve" ("ERROR: " +:+ reserved_error) = Some "*eve".
Proof.
  destruct (handshake_reply_read_back 2%nat ("10.0.0.2", 5001) "bob427" "bob"
              "" ChatServer_init) as (_ & Hread & _); [reflexivity|reflexivity|].
  destruct (handshake_reply_read_back 2%nat ("10.0.0.2", 5001) "eve" "*eve"
              ("ERROR: " +:+ reserved_error) ChatServer_init)
    as (_ & _ & Hkeep); [reflexivity|reflexivity|].
  split; [exact Hread|exact Hkeep].
Defined.

(** ** The statements above at concrete states *)

Lemma rate_limited_frame_is_dropped_witness :
  let st := joined 1%nat ("10.0.0.1", 5000) "bob" ChatServer_init in
  let st10 := foldl (fun acc t => on_data 1%nat "hi" t "10:00:00" acc) st
                [1; 2; 3; 4; 5; 6; 7; 8; 9; 10] in
  total_messages st10 = 10 /\
  sent (on_data 1%nat "hi" 11 "10:00:11" st10)
    = sent st10 ++ [(1%nat, rate_limit_notice)] /\
  total_messages (on_data 1%nat "hi" 11 "10:00:11" st10) = 10.
Proof.
  intros st st10.
  assert (Hten : total_messages st10 = 10) by (vm_compute; reflexivity).
  destruct (rate_limited_frame_is_dropped 1%nat "hi" 11 "10:00:11" st10)
    as (Hsent & Htotal & _).
  - discriminate.
  - vm_compute. reflexivity.
  - split; [exact Hten|]. split; [exact Hsent|]. by rewrite Htotal.
Defined.

Lemma public_message_broadcast_witness :
  let st := joined 2%nat ("10.0.0.2", 5001) "amy"
              (joined 1%nat ("10.0.0.1", 5000) "bob" ChatServer_init) in
  sent (on_data 1%nat "hello" 30 "10:00:30" st)
  = sent st ++ [(2%nat, "[10:00:30] bob: hello")].
Proof.
  intros st.
  destruct (public_message_broadcast 1%nat "hello" 30 "10:00:30" st)
    as (Hsent & _).
  - discriminate.
  - reflexivity.
  - vm_compute. reflexivity.
  - rewrite Hsent. reflexivity.
Defined.

Lemma pm_command_routed_witness :
  let st := joined 2%nat ("10.0.0.2", 5001) "amy"
              (joined 1%nat ("10.0.0.1", 5000) "bob" ChatServer_init) in
  sent (on_data 1%nat (pm_command "amy" "see you at 5") 30 "10:00:30" st)
  = sent st ++ [(2%nat, "[10:00:30] PRIVATE from bob: see you at 5");
                (1%nat, "[10:00:30] PRIVATE to amy: see you at 5")].
Proof.
  intros st.
  destruct (pm_command_routed 1%nat "amy" "see you at 5" 30 "10:00:30" st)
    as (_ & _ & Honline & _).
  - reflexivity.
  - vm_compute. reflexivity.
  - destruct (Honline 2%nat) as (Hsent & _); [reflexivity|].
    rewrite Hsent. reflexivity.
Defined.

Lemma pm_command_without_text_witness :
  let st := joined 1%nat ("10.0.0.1", 5000) "bob" ChatServer_init in
  sent (on_data 1%nat "/pm amy" 30 "10:00:30" st)
  = sent st ++ [(1%nat, "Usage: /pm <nickname> <message>")].
Proof.
  intros st.
  destruct (pm_command_without_text 1%nat "amy" 30 "10:00:30" st) as (Hsent & _).
  - reflexivity.
  - vm_compute. reflexivity.
  - exact Hsent.
Defined.

Lemma sessions_are_listed_witness :
  let st := handle_client_disconnect 2%nat
              (handle_client_disconnect 2%nat
                 (joined 2%nat ("10.0.0.2", 5002) "bob"
                    (joined 1%nat ("10.0.0.1", 5001) "Unknown" ChatServer_init))) in
  reachable st /\ outputs st = [1%nat] /\ clients st = 0 /\
  clients st <= Z.of_nat (length (outputs st)).
Proof.
  intros st.
  assert (Hreach : reachable st) by apply reachable_double_teardown.
  split; [exact Hreach|]. split; [reflexivity|]. split; [reflexivity|].
  destruct (sessions_are_listed st Hreach) as ((_ & _ & _ & Hcount) & _).
  exact Hcount.
Defined.

Lemma mail_waits_only_for_absent_witness :
  let st := joined 1%nat ("10.0.0.1", 5000) "bob" ChatServer_init in
  reachable st /\ offline_messages st !! "bob" = None.
Proof.
  intros st.
  assert (Hreach : reachable st).
  { apply (reachable_step ChatServer_init
             (Accept 1%nat ("10.0.0.1", 5000) "NAME: bob" [])).
    - apply reachable_init.
    - reflexivity.
    - reflexivity. }
  split; [exact Hreach|].
  destruct (mail_waits_only_for_absent st Hreach) as (Hactive & _).
  apply Hactive. reflexivity.
Defined.

Lemma broker_limiter_bounded_witness :
  let st := joined 1%nat ("10.0.0.1", 5000) "bob" ChatServer_init in
  reachable st /\
  Z.of_nat (length (window (rate_limiter st) "bob")) <= MESSAGE_RATE_LIMIT.
Proof.
  intros st.
  assert (Hreach : reachable st).
  { apply (reachable_step ChatServer_init
             (Accept 1%nat ("10.0.0.1", 5000) "NAME: bob" [])).
    - apply reachable_init.
    - reflexivity.
    - reflexivity. }
  split; [exact Hreach|].
  destruct (broker_limiter_bounded st Hreach) as (_ & _ & Hbound).
  apply Hbound.
Defined.

(** ** The member list *)

Lemma dict_set_new_app {V} (k : string) (v : V) (d : list (string * V)) :
  Dict.get k d = None -> Dict.set k v d = d ++ [(k, v)].
Proof.
  induction d as [|[k' v'] d IH]; simpl; [done|].
  destruct (String.eqb_spec k k'); [done|]. intros Hg. by rewrite IH.
Qed.

Lemma dict_get_In_pair {V} (k : string) (v : V) (d : list (string * V)) :
  Dict.get k d = Some v -> In (k, v) d.
Proof.
  induction d as [|[k' v'] d IH]; simpl; [done|].
  destruct (String.eqb_spec k k') as [->|Hne].
  - intros [= ->]. by left.
  - intros Hg. right. by apply IH.
Qed.

Lemma dict_In_get {V} (k : string) (v : V) (d : list (string * V)) :
  NoDup (Dict.keys d) -> In (k, v) d -> Dict.get k d = Some v.
Proof.
  induction d as [|[k' v'] d IH]; simpl; [done|].
  intros Hnd. apply NoDup_cons in Hnd as [Hk Hnd].
  intros [[= -> ->]|Hin].
  - by rewrite String.eqb_refl.
  - destruct (String.eqb_spec k k') as [->|Hne]; [|by apply IH].
    exfalso. apply Hk. apply list_elem_of_In.
    apply (in_map fst) in Hin. exact Hin.
Qed.

Lemma dict_del_sublist (k : string) (d : list (string * Sock)) :
  sublist (map snd (Dict.del k d)) (map snd d).
Proof.
  induction d as [|[k' s'] d IH]; simpl; [constructor|].
  destruct (String.eqb k k'); [by apply sublist_cons|by apply sublist_skip].
Qed.

Lemma sublist_list_remove x (l outs : list Sock) :
  sublist l outs -> ~ In x l -> sublist l (list_remove x outs).
Proof.
  induction 1 as [|y l1 l2 Hsub IH|y l1 l2 Hsub IH]; simpl; intros Hnot.
  - constructor.
  - destruct (Nat.eqb_spec x y) as [->|Hne]; [tauto|].
    apply sublist_skip. apply IH. tauto.
  - destruct (Nat.eqb_spec x y) as [->|Hne]; [done|].
    apply sublist_cons. by apply IH.
Qed.

(** In every state the broker reaches, the names of [nickname_map] (the
    names [send_user_list] joins with commas) are pairwise distinct, each
    is bound to a socket that has a session under that name, and the bound
    sockets follow the order of [outputs], that is the order in which the
    sessions joined.  A session can be missing from the list. *)
Theorem member_list_follows_sessions (st : ChatServer) :
  reachable st ->
  NoDup (Dict.keys (nickname_map st)) /\ member_list_in_join_order st.
Proof.
  intros Hreach.
  destruct (reachable_invariant st Hreach) as [(Hnd & Hnm & _) _].
  split; [done|]. split; [|intros n s Hin; apply Hnm; by apply dict_In_get].
  clear Hnd Hnm.
  induction Hreach as [|st ev st' Hreach IH Hen Hrun]; [constructor|].
  destruct (reachable_invariant st Hreach) as [(Hnd & Hnm & _) _].
  assert (Hleave : forall sock,
            sublist (map snd (nickname_map (handle_client_disconnect sock st)))
                    (outputs (handle_client_disconnect sock st))).
  { intros sock. rewrite handle_client_disconnect_departed.
    unfold departed. simpl.
    apply sublist_list_remove.
    - etrans; [apply dict_del_sublist|done].
    - intros Hin. apply in_map_iff in Hin as ([n' s] & Hs & Hin).
      simpl in Hs. subst s.
      apply dict_In_get in Hin; [|by apply dict_NoDup_del].
      destruct (decide (get_client_name st sock = n')) as [Heq|Hne].
      { rewrite Heq, dict_get_del_eq in Hin by done. done. }
      rewrite dict_get_del_ne in Hin by done.
      destruct (Hnm _ _ Hin) as [a Ha].
      apply Hne. by apply (get_client_name_session _ _ a). }
  destruct ev as [client address cname draws|sock data now timestamp|sock];
    simpl in Hen, Hrun.
  - destruct (on_handshake_tables _ _ _ _ _ _ Hrun)
      as [Hsame|(name & n & _ & Hgen & ->)].
    + destruct Hsame as (_ & _ & -> & _ & -> & _). done.
    + destruct (generate_result _ _ _ _ Hgen) as (Hfree & _).
      apply dict_mem_false in Hfree.
      unfold joined. simpl.
      rewrite dict_set_new_app, map_app by done. simpl.
      by apply sublist_app.
  - injection Hrun as <-.
    destruct (String.eqb_spec data "") as [->|Hne]; [by apply Hleave|].
    destruct (on_data_tables sock data now timestamp st Hne)
      as (Hcl & Hcm & Hnm' & Hin & Hout & _).
    by rewrite Hnm', Hout.
  - injection Hrun as <-. by apply Hleave.
Qed.

Lemma member_list_follows_sessions_witness :
  let st := joined 2%nat ("10.0.0.2", 5002) "bob"
              (joined 1%nat ("10.0.0.1", 5001) "Unknown" ChatServer_init) in
  reachable st /\ sublist [1%nat; 2%nat] (outputs st).
Proof.
  intros st.
  assert (Hreach : reachable st).
  { apply (reachable_step
             (joined 1%nat ("10.0.0.1", 5001) "Unknown" ChatServer_init)
             (Accept 2%nat ("10.0.0.2", 5002) "NAME: bob" []));
      [|reflexivity|reflexivity].
    apply (reachable_step ChatServer_init
             (Accept 1%nat ("10.0.0.1", 5001) "NAME: Unknown" []));
      [apply reachable_init|reflexivity|reflexivity]. }
  split; [exact Hreach|].
  destruct (member_list_follows_sessions st Hreach) as (_ & Horder & _).
  exact Horder.
Defined.
